(** * A model of the moderndbs buffer manager

    Shallow embedding of [src/src/buffer_manager.cc] and
    [src/include/moderndbs/buffer_manager.h]: buffer frames with their
    reader-writer latch, the frame table, the FIFO and LRU queues, and the
    operations [fix_page] and [unfix_page].

    - Unsigned machine integers ([uint64_t], [size_t], [uint16_t]) are
      values of [N]: arguments are taken in the range of their type, and
      the wrap-around is written out where the code computes.
    - The table and both queues hold [BufferFrame*] and compare them by
      identity, so frames live in an explicit free store indexed by
      address.  The address that [new BufferFrame] returns is an argument
      of [fix_page]; any address that is not live is possible, also that
      of the frame deleted just before.
    - Exceptions are results.  A C++ exception leaves the objects as they
      are at the throw, so every result comes with the state reached.
    - Threads are interleaved at the granularity of the critical sections:
      a call of [fix_page] runs from [mtx.lock()] to [mtx.unlock()] in one
      step.  A blocking latch acquisition that cannot succeed in the
      current state leaves the caller suspended; a later [Resume] step is
      the moment it obtains the latch.  Threads have no names: a call
      that depends on whether its caller already holds a latch takes that
      fact as an argument.
    - The file layer ([moderndbs/file.h]) is an interface, [FileStore]. *)

From Stdlib Require Import NArith Lia DecimalString DecimalN DecimalPos.
From stdpp Require Import gmap strings list fin_maps.

Local Open Scope N_scope.

(** ** Machine arithmetic *)

Definition wrap64 (n : N) : N := n mod 2 ^ 64.
Definition wrap16 (n : N) : N := n mod 2 ^ 16.

(** [std::to_string] on an unsigned value: its decimal digits. *)
Definition to_string (n : N) : string := NilZero.string_of_uint (N.to_uint n).

(** Frame pointers. *)
Abbreviation ptr := N.

(** ** Exceptions and results *)

Inductive exn :=
| buffer_full_error   (* moderndbs::buffer_full_error *)
| io_error.           (* a std::exception raised by the File layer *)

Inductive res :=
| Done
| Throws (e : exn).

(** ** The reader-writer latch ([pthread_rwlock_t]) *)

Inductive rwlock :=
| Unlocked
| RdLocked (readers : positive)
| WrLocked.

(** [pthread_rwlock_trywrlock]: [None] when the call reports EBUSY. *)
Definition trywrlock (l : rwlock) : option rwlock :=
  match l with
  | Unlocked => Some WrLocked
  | _ => None
  end.

(** [pthread_rwlock_tryrdlock]. *)
Definition tryrdlock (l : rwlock) : option rwlock :=
  match l with
  | Unlocked => Some (RdLocked 1)
  | RdLocked n => Some (RdLocked (Pos.succ n))
  | WrLocked => None
  end.

(** How a blocking lock call ends in the current state. *)
Inductive lock_result :=
| Acquired (l : rwlock)   (* returns 0, the lock as it is afterwards *)
| Refused                 (* returns an error number, the lock unchanged *)
| Waits.                  (* does not return while the lock stays as it is *)

(** [pthread_rwlock_wrlock] and [pthread_rwlock_rdlock].  [owned] says
    that the calling thread is the one that holds the lock for writing:
    the call then returns EDEADLK instead of waiting for itself. *)
Definition wrlock (owned : bool) (l : rwlock) : lock_result :=
  match trywrlock l with
  | Some l' => Acquired l'
  | None =>
      match l with
      | WrLocked => if owned then Refused else Waits
      | _ => Waits
      end
  end.

Definition rdlock (owned : bool) (l : rwlock) : lock_result :=
  match tryrdlock l with
  | Some l' => Acquired l'
  | None => if owned then Refused else Waits
  end.

(** [pthread_rwlock_unlock]; undefined ([None]) on a lock nobody holds. *)
Definition rw_unlock (l : rwlock) : option rwlock :=
  match l with
  | Unlocked => None
  | RdLocked 1 => Some Unlocked
  | RdLocked n => Some (RdLocked (Pos.pred n))
  | WrLocked => Some Unlocked
  end.

(** ** The file layer

    [moderndbs/file.h] is used through [File::open_file], [read_block] and
    [write_block] only; together with [std::ofstream] and [malloc] it is
    the environment of the frame code.  A failing call ([None]) stands for
    a thrown exception. *)

Inductive Mode := READ | WRITE.

Class FileStore := {
  Disk : Type;
  (** [File::open_file(name, mode)] *)
  open_file : string → Mode → Disk → option Disk;
  (** [std::ofstream file(name)] *)
  ofstream : string → Disk → Disk;
  (** [read_block(offset, size, block)]: the block after the read *)
  read_block : string → N → N → list Byte.byte → Disk → option (list Byte.byte);
  (** [write_block(block, offset, size)]; the block may be [nullptr] *)
  write_block : string → option (list Byte.byte) → N → N → Disk → option Disk;
  (** contents of a fresh [malloc(size)] region *)
  malloc : N → list Byte.byte
}.

(** ** Page identifiers (static helpers of [BufferManager]) *)

Definition get_segment_id (page_id : N) : N :=
  wrap16 (N.shiftr page_id 48).

Definition get_segment_page_id (page_id : N) : N :=
  N.land page_id (N.shiftl 1 48 - 1).

(** ** Buffer frames *)

Module FrameState.
Inductive t := empty | clean | dirty.

#[global] Instance eq_dec : EqDecision t.
Proof. solve_decision. Defined.
End FrameState.

Module BufferFrame.

Record t := mk {
  page_id : N;
  page_size : N;
  segment_id : N;
  pageOffsetInFile : N;
  state : FrameState.t;
  data : option (list Byte.byte);   (* [None] is [nullptr] *)
  frameLock : rwlock
}.

Definition set_state (st : FrameState.t) (f : t) : t :=
  mk (page_id f) (page_size f) (segment_id f) (pageOffsetInFile f)
     st (data f) (frameLock f).

Definition set_data (b : option (list Byte.byte)) (f : t) : t :=
  mk (page_id f) (page_size f) (segment_id f) (pageOffsetInFile f)
     (state f) b (frameLock f).

Definition set_frameLock (l : rwlock) (f : t) : t :=
  mk (page_id f) (page_size f) (segment_id f) (pageOffsetInFile f)
     (state f) (data f) l.

(** The constructor. *)
Definition new (page_id page_size segment_id : N) : t :=
  {| page_id := page_id;
     page_size := page_size;
     segment_id := segment_id;
     pageOffsetInFile := wrap64 (N.land page_id (N.shiftl 1 48 - 1) * page_size);
     state := FrameState.empty;
     data := None;
     frameLock := Unlocked |}.

Section WithFiles.
Context `{FS : FileStore}.

(** The [try { open } catch { create; open }] block shared by
    [readPage] and [writePage]: the disk afterwards, and whether a
    handle was obtained. *)
Definition open_or_create (name : string) (m : Mode) (d : Disk)
  : bool * Disk :=
  match open_file name m d with
  | Some d1 => (true, d1)
  | None =>
      let d1 := ofstream name d in
      match open_file name m d1 with
      | Some d2 => (true, d2)
      | None => (false, d1)
      end
  end.

Definition readPage (f : t) (d : Disk) : res * t * Disk :=
  let buf := malloc (page_size f) in
  let f1 := set_data (Some buf) f in
  let name := to_string (segment_id f1) in
  match open_or_create name READ d with
  | (false, d1) => (Throws io_error, f1, d1)
  | (true, d1) =>
      match read_block name (pageOffsetInFile f1) (page_size f1) buf d1 with
      | None => (Throws io_error, f1, d1)
      | Some buf' =>
          (Done, set_state FrameState.clean (set_data (Some buf') f1), d1)
      end
  end.

Definition writePage (f : t) (d : Disk) : res * t * Disk :=
  let name := to_string (segment_id f) in
  match open_or_create name WRITE d with
  | (false, d1) => (Throws io_error, f, d1)
  | (true, d1) =>
      match write_block name (data f) (pageOffsetInFile f) (page_size f) d1 with
      | None => (Throws io_error, f, d1)
      | Some d2 => (Done, set_state FrameState.clean f, d2)
      end
  end.

Definition flush (f : t) (d : Disk) : res * t * Disk :=
  if decide (state f = FrameState.dirty) then writePage f d
  else (Done, f, d).

Definition get_data (f : t) (d : Disk)
  : res * option (list Byte.byte) * t * Disk :=
  if decide (state f = FrameState.empty) then
    match readPage f d with
    | (Done, f', d') => (Done, data f', f', d')
    | (Throws e, f', d') => (Throws e, None, f', d')
    end
  else (Done, data f, f, d).

(** The destructor: the latch is destroyed, the frame flushed and its
    buffer freed.  What remains is the effect on the disk. *)
Definition destroy (f : t) (d : Disk) : res * Disk :=
  match flush f d with
  | (r, _, d') => (r, d')
  end.

(** [flush()] called twice in a row; an exception of the first call
    leaves the sequence. *)
Definition flush_twice (f : t) (d : Disk) : res * t * Disk :=
  match flush f d with
  | (Done, f', d') => flush f' d'
  | r => r
  end.

End WithFiles.

Definition setDirty (f : t) : t := set_state FrameState.dirty f.

(** [lockWrite(b)] and [lockRead(b)], called by a thread for which
    [owned] tells whether it holds the write latch of this frame already.
    [b = false] tries without blocking; [b = true] blocks.  The result is
    what the call returns, the comparison of pthread's return value with
    0, and the frame afterwards; [None] says that the call does not return
    in this state: the caller waits for the latch. *)
Definition lockWrite (owned : bool) (exclusive : bool) (f : t) : option (bool * t) :=
  if negb exclusive then
    match trywrlock (frameLock f) with
    | Some l => Some (true, set_frameLock l f)
    | None => Some (false, f)
    end
  else
    match wrlock owned (frameLock f) with
    | Acquired l => Some (true, set_frameLock l f)
    | Refused => Some (false, f)
    | Waits => None
    end.

Definition lockRead (owned : bool) (exclusive : bool) (f : t) : option (bool * t) :=
  if negb exclusive then
    match tryrdlock (frameLock f) with
    | Some l => Some (true, set_frameLock l f)
    | None => Some (false, f)
    end
  else
    match rdlock owned (frameLock f) with
    | Acquired l => Some (true, set_frameLock l f)
    | Refused => Some (false, f)
    | Waits => None
    end.

(** [unlock()]; [None] when the latch is not held (undefined). *)
Definition unlock (f : t) : option t :=
  match rw_unlock (frameLock f) with
  | Some l => Some (set_frameLock l f)
  | None => None
  end.

End BufferFrame.

(** ** The buffer manager *)

(** How a call of [fix_page] ends. *)
Inductive fix_outcome :=
| Fixed (frame : ptr)       (* returns [*frame]: latched as requested, unless
                               the blocking lock call returned an error *)
| Suspended (frame : ptr)   (* mtx released; the caller waits for the latch *)
| Thrown (e : exn)          (* leaves by an exception *)
| Deadlocked                (* waits for [mtx], which nobody will release *)
| Aborted                   (* an exception escaped a destructor *)
| Stuck.                    (* no defined execution: a dangling pointer is
                               used, or [new] cannot return the address *)

Module BufferManager.

(** The members of the class, and [heap]: the free store holding the
    frames that the table and the queues point to. *)
Record t := mk {
  page_size : N;
  page_count : N;
  mtx : bool;                       (* [true] while the mutex is held *)
  bufferFrameMap : gmap N ptr;
  fifo : list ptr;
  lru : list ptr;
  heap : gmap ptr BufferFrame.t
}.

Definition set_mtx (b : bool) (s : t) : t :=
  mk (page_size s) (page_count s) b (bufferFrameMap s) (fifo s) (lru s) (heap s).
Definition set_bufferFrameMap (m : gmap N ptr) (s : t) : t :=
  mk (page_size s) (page_count s) (mtx s) m (fifo s) (lru s) (heap s).
Definition set_fifo (q : list ptr) (s : t) : t :=
  mk (page_size s) (page_count s) (mtx s) (bufferFrameMap s) q (lru s) (heap s).
Definition set_lru (q : list ptr) (s : t) : t :=
  mk (page_size s) (page_count s) (mtx s) (bufferFrameMap s) (fifo s) q (heap s).
Definition set_heap (h : gmap ptr BufferFrame.t) (s : t) : t :=
  mk (page_size s) (page_count s) (mtx s) (bufferFrameMap s) (fifo s) (lru s) h.

(** The constructor. *)
Definition new (page_size page_count : N) : t :=
  {| page_size := page_size; page_count := page_count; mtx := false;
     bufferFrameMap := ∅; fifo := []; lru := []; heap := ∅ |}.

(** [v.erase(std::remove(v.begin(), v.end(), p), v.end())] *)
Definition erase_remove (p : ptr) (v : list ptr) : list ptr :=
  filter (λ q, q ≠ p) v.

Definition isFrameAvailable (s : t) : bool :=
  bool_decide (N.of_nat (size (bufferFrameMap s)) < page_count s).

(** The loop over [fifo] looking for a replacement candidate: the first
    frame whose latch [lockWrite(false)] obtains, with the free store
    after the attempts; the outer [None] is a dangling pointer.  (A call
    that does not block does not depend on who holds the latch.) *)
Fixpoint find_candidate (q : list ptr) (h : gmap ptr BufferFrame.t)
  : option (option ptr * gmap ptr BufferFrame.t) :=
  match q with
  | [] => Some (None, h)
  | p :: q' =>
      match h !! p with
      | None => None
      | Some f =>
          match BufferFrame.lockWrite false false f with
          | Some (true, f') => Some (Some p, <[p := f']> h)
          | _ => find_candidate q' h
          end
      end
  end.

(** [m.insert(std::make_pair(k, v))]: an existing entry is kept; the
    result is the table and the value of the entry at [k]. *)
Definition map_insert (k : N) (v : ptr) (m : gmap N ptr) : gmap N ptr * ptr :=
  match m !! k with
  | Some v' => (m, v')
  | None => (<[k := v]> m, v)
  end.

Section WithFiles.
Context `{FS : FileStore}.

(** The tail of the miss branch, from [new BufferFrame] on; [fresh] is
    the address the allocator returns.  Nobody holds the latch of the new
    frame. *)
Definition install (fresh : ptr) (page_id : N) (exclusive : bool)
    (d : Disk) (s : t) : fix_outcome * Disk * t :=
  match heap s !! fresh with
  | Some _ => (Stuck, d, s)
  | None =>
      let frame := BufferFrame.new page_id (page_size s) (get_segment_id page_id) in
      let '(m, p) := map_insert page_id fresh (bufferFrameMap s) in
      let s1 := set_fifo (fifo s ++ [p])
                  (set_bufferFrameMap m (set_heap (<[fresh := frame]> (heap s)) s)) in
      match (if exclusive then BufferFrame.lockWrite false true frame
             else BufferFrame.lockRead false true frame) with
      | None => (Suspended fresh, d, s1)
      | Some (_, frame') =>
          (Fixed fresh, d,
           set_mtx false (set_heap (<[fresh := frame']> (heap s1)) s1))
      end
  end.

(** [fix_page(page_id, exclusive)], called by a thread for which [owned]
    tells whether it already holds the write latch of the frame of
    [page_id].  The result of the blocking lock call is not looked at
    ([locked] is not read after line 156): when pthread returns an error,
    [fix_page] returns the frame all the same. *)
Definition fix_page (owned : bool) (fresh : ptr) (page_id : N) (exclusive : bool)
    (d : Disk) (s : t) : fix_outcome * Disk * t :=
  if mtx s then (Deadlocked, d, s) else
  let s := set_mtx true s in
  match bufferFrameMap s !! page_id with
  | Some p =>
      (* the page is in the buffer: move its frame to the end of lru *)
      let s1 := set_fifo (erase_remove p (fifo s))
                  (set_lru (erase_remove p (lru s) ++ [p]) s) in
      match heap s1 !! p with
      | None => (Stuck, d, s1)
      | Some f =>
          match (if exclusive then BufferFrame.lockWrite owned false f
                 else BufferFrame.lockRead owned false f) with
          | Some (true, f') =>
              (Fixed p, d, set_mtx false (set_heap (<[p := f']> (heap s1)) s1))
          | _ =>
              (* mtx is released, then the blocking call *)
              let s2 := set_mtx false s1 in
              match (if exclusive then BufferFrame.lockWrite owned true f
                     else BufferFrame.lockRead owned true f) with
              | Some (_, f') => (Fixed p, d, set_heap (<[p := f']> (heap s2)) s2)
              | None => (Suspended p, d, s2)
              end
          end
      end
  | None =>
      if isFrameAvailable s then install fresh page_id exclusive d s
      else
        match find_candidate (fifo s) (heap s) with
        | None => (Stuck, d, s)
        | Some (None, h) =>
            (Thrown buffer_full_error, d, set_mtx false (set_heap h s))
        | Some (Some replacementCandidate, h) =>
            match h !! replacementCandidate with
            | None => (Stuck, d, set_heap h s)
            | Some f =>
                match BufferFrame.flush f d with
                | (Throws e, f', d') =>
                    (Thrown e, d', set_heap (<[replacementCandidate := f']> h) s)
                | (Done, f', d') =>
                    let m := delete (BufferFrame.page_id f') (bufferFrameMap s) in
                    let q := erase_remove replacementCandidate (fifo s) in
                    match BufferFrame.destroy f' d' with
                    | (Throws _, d'') =>
                        (Aborted, d'',
                         set_fifo q (set_bufferFrameMap m
                           (set_heap (<[replacementCandidate := f']> h) s)))
                    | (Done, d'') =>
                        install fresh page_id exclusive d''
                          (set_fifo q (set_bufferFrameMap m
                             (set_heap (delete replacementCandidate h) s)))
                    end
                end
            end
        end
  end.

End WithFiles.

(** [unfix_page(page, is_dirty)]; [None] when [page] is a dangling
    reference or its latch is not held (undefined behaviour). *)
Definition unfix_page (page : ptr) (is_dirty : bool) (s : t) : option t :=
  match heap s !! page with
  | None => None
  | Some f =>
      let f1 := if is_dirty then BufferFrame.setDirty f else f in
      match BufferFrame.unlock f1 with
      | None => None
      | Some f2 => Some (set_heap (<[page := f2]> (heap s)) s)
      end
  end.

(** [get_fifo_list()] and [get_lru_list()]. *)
Definition page_ids (q : list ptr) (h : gmap ptr BufferFrame.t) : option (list N) :=
  mapM (λ p, BufferFrame.page_id <$> h !! p) q.

Definition get_fifo_list (s : t) : option (list N) := page_ids (fifo s) (heap s).
Definition get_lru_list (s : t) : option (list N) := page_ids (lru s) (heap s).

End BufferManager.

(** ** Call sequences *)

Inductive call :=
| FixPage (owned : bool) (fresh : ptr) (page_id : N) (exclusive : bool)
| UnfixPage (page : ptr) (is_dirty : bool)
| GetData (page : ptr)
| Resume (page : ptr) (exclusive : bool).

(** A caller suspended in the hit branch of [fix_page] obtains the latch:
    its blocking [lockWrite(true)] or [lockRead(true)] on the frame at [p]
    returns.  A thread that waits does not hold the latch.  [None] when
    the latch is not available, or the frame is gone. *)
Definition resume (p : ptr) (exclusive : bool) (s : BufferManager.t)
  : option BufferManager.t :=
  match BufferManager.heap s !! p with
  | None => None
  | Some f =>
      match (if exclusive then BufferFrame.lockWrite false true f
             else BufferFrame.lockRead false true f) with
      | None => None
      | Some (_, f') =>
          Some (BufferManager.set_heap (<[p := f']> (BufferManager.heap s)) s)
      end
  end.

Section Run.
Context `{FS : FileStore}.

(** The holder of the latch calls [get_data()] on the frame at [p];
    [None] for a dangling pointer. *)
Definition frame_get_data (p : ptr) (d : Disk) (s : BufferManager.t)
  : option (res * option (list Byte.byte) * Disk * BufferManager.t) :=
  match BufferManager.heap s !! p with
  | None => None
  | Some f =>
      match BufferFrame.get_data f d with
      | (r, b, f', d') =>
          Some (r, b, d',
                BufferManager.set_heap (<[p := f']> (BufferManager.heap s)) s)
      end
  end.

(** One call on the pool; [None] when it has no defined execution or
    terminates the process. *)
Definition step (c : call) (w : Disk * BufferManager.t)
  : option (Disk * BufferManager.t) :=
  let '(d, s) := w in
  match c with
  | FixPage owned fresh page_id exclusive =>
      match BufferManager.fix_page owned fresh page_id exclusive d s with
      | (Stuck, _, _) | (Aborted, _, _) => None
      | (_, d', s') => Some (d', s')
      end
  | UnfixPage page is_dirty =>
      match BufferManager.unfix_page page is_dirty s with
      | Some s' => Some (d, s')
      | None => None
      end
  | GetData page =>
      match frame_get_data page d s with
      | Some (_, _, d', s') => Some (d', s')
      | None => None
      end
  | Resume page exclusive =>
      match resume page exclusive s with
      | Some s' => Some (d, s')
      | None => None
      end
  end.

Fixpoint run (cs : list call) (w : Disk * BufferManager.t)
  : option (Disk * BufferManager.t) :=
  match cs with
  | [] => Some w
  | c :: cs' =>
      match step c w with
      | Some w' => run cs' w'
      | None => None
      end
  end.

End Run.

(** ** Two file layers to run the model on

    [moderndbs/file.h] is not part of the sources.  Section 6 of the
    specification describes the store as files of bytes named by a string,
    with byte-range reads and writes at arbitrary offsets, where opening
    may fail if the file is absent and a write may extend the file. *)

(** Modelled from the spec: [read_block] on a file with the given content.
    A read past the end returns fewer bytes and leaves the rest of the
    block as it was (section 4.1, materialisation). *)
Definition mem_read (content : list Byte.byte) (offset size : N)
    (block : list Byte.byte) : list Byte.byte :=
  let got := take (N.to_nat size) (drop (N.to_nat offset) content) in
  got ++ drop (length got) block.

(** Modelled from the spec: [write_block] on a file with the given
    content; a write past the end extends the file, with zero bytes in the
    gap. *)
Definition mem_write (content : list Byte.byte) (block : list Byte.byte)
    (offset size : N) : list Byte.byte :=
  let off := N.to_nat offset in
  let new := take (N.to_nat size) block in
  take off (content ++ replicate (off - length content)%nat Byte.x00)
    ++ new ++ drop (off + length new)%nat content.

(** Modelled from the spec: a file layer in memory.  Opening fails on a
    missing file; writing from a null block fails; fresh memory holds
    zero bytes. *)
Definition mem_files : FileStore :=
  {| Disk := gmap string (list Byte.byte);
     open_file name _ d := if d !! name is Some _ then Some d else None;
     ofstream name d := <[name := []]> d;
     read_block name offset size block d :=
       content ← d !! name; Some (mem_read content offset size block);
     write_block name block offset size d :=
       content ← d !! name; b ← block;
       Some (<[name := mem_write content b offset size]> d);
     malloc size := replicate (N.to_nat size) Byte.x00 |}.

(** Modelled from the spec: the same store on a device whose reads fail
    (section 7, IoFailure reported from materialisation). *)
Definition unreadable_files : FileStore :=
  {| Disk := gmap string (list Byte.byte);
     open_file name _ d := if d !! name is Some _ then Some d else None;
     ofstream name d := <[name := []]> d;
     read_block _ _ _ _ _ := None;
     write_block name block offset size d :=
       content ← d !! name; b ← block;
       Some (<[name := mem_write content b offset size]> d);
     malloc size := replicate (N.to_nat size) Byte.x00 |}.

(** ** Call sequences of the scenarios *)

(** [fix_page(pid, false)] followed by [unfix_page(frame, false)], by a
    thread that holds no latch; [p] is the address of the frame when the
    page is not yet in the buffer. *)
Definition touch (p : ptr) (pid : N) : list call :=
  [FixPage false p pid false; UnfixPage p false].

(** Pages [1..n] touched in turn, the frame of page [i] at address
    [100 + i]. *)
Definition touch_upto (n : nat) : list call :=
  flat_map (λ i, touch (100 + N.of_nat i) (N.of_nat i)) (seq 1 n).

(** The two snapshots after a call sequence on an empty store. *)
Definition snapshots (page_count : N) (cs : list call)
  : option (option (list N) * option (list N)) :=
  match run (FS := mem_files) cs (∅, BufferManager.new 1024 page_count) with
  | Some (_, s) => Some (BufferManager.get_fifo_list s, BufferManager.get_lru_list s)
  | None => None
  end.

(** ** Invariants of frames and of the pool *)

(** The blocking lock call of a thread does not wait but returns an error:
    the thread itself holds the latch for writing. *)
Definition refuses (owned : bool) (l : rwlock) : bool :=
  owned && match l with WrLocked => true | _ => false end.

(** The fields fixed by the constructor. *)
Definition same_identity (f g : BufferFrame.t) : Prop :=
  BufferFrame.page_id g = BufferFrame.page_id f ∧
  BufferFrame.page_size g = BufferFrame.page_size f ∧
  BufferFrame.segment_id g = BufferFrame.segment_id f ∧
  BufferFrame.pageOffsetInFile g = BufferFrame.pageOffsetInFile f.

(** What the constructor call in [fix_page] establishes for a frame of a
    pool with page size [ps]. *)
Definition made_for (ps : N) (f : BufferFrame.t) : Prop :=
  BufferFrame.page_size f = ps ∧
  BufferFrame.segment_id f = get_segment_id (BufferFrame.page_id f) ∧
  BufferFrame.pageOffsetInFile f =
    wrap64 (get_segment_page_id (BufferFrame.page_id f) * ps).

Record wf (s : BufferManager.t) : Prop := {
  (* a table entry points to a live frame for that page *)
  wf_table : ∀ pid p, BufferManager.bufferFrameMap s !! pid = Some p →
    ∃ f, BufferManager.heap s !! p = Some f ∧ BufferFrame.page_id f = pid;
  (* every live frame is the table's frame for its page *)
  wf_heap : ∀ p f, BufferManager.heap s !! p = Some f →
    BufferManager.bufferFrameMap s !! BufferFrame.page_id f = Some p;
  (* the queues hold exactly the live frames, each once *)
  wf_queues : ∀ p, p ∈ BufferManager.fifo s ++ BufferManager.lru s ↔
    is_Some (BufferManager.heap s !! p);
  wf_nodup : NoDup (BufferManager.fifo s ++ BufferManager.lru s);
  wf_size : N.of_nat (size (BufferManager.bufferFrameMap s)) ≤ BufferManager.page_count s;
  wf_frames : ∀ p f, BufferManager.heap s !! p = Some f →
    made_for (BufferManager.page_size s) f
}.

(** ** Notions used by the further properties *)

(** The request conflicts with the latch as it is: [lockWrite(false)],
    respectively [lockRead(false)], would return [false]. *)
Definition conflicts (exclusive : bool) (l : rwlock) : Prop :=
  if exclusive then l ≠ Unlocked else l = WrLocked.

(** The calls that can make a frame dirty. *)
Definition marks_dirty (c : call) : bool :=
  match c with
  | UnfixPage _ true => true
  | _ => false
  end.

(** A file layer on which a block written by [write_block] can be opened
    and read again at the same place into fresh memory. *)
Definition reads_back_writes (FS : FileStore) : Prop :=
  ∀ name b offset size (d1 d2 : Disk),
    write_block name (Some b) offset size d1 = Some d2 →
    length b = N.to_nat size →
    open_file name READ d2 = Some d2 ∧
    read_block name offset size (malloc size) d2 = Some b.

(** [get_data()] returns the address of the frame's buffer
    ([return data]), not a copy: what its caller writes at that address
    is written into the frame.  The caller writes [bytes] over the
    buffer, keeping its length.  [None] for a dangling pointer, a frame
    without buffer, or another length. *)
Definition store_data (p : ptr) (bytes : list Byte.byte) (s : BufferManager.t)
  : option BufferManager.t :=
  match BufferManager.heap s !! p with
  | Some f =>
      match BufferFrame.data f with
      | Some old =>
          if decide (length bytes = length old) then
            Some (BufferManager.set_heap
                    (<[p := BufferFrame.set_data (Some bytes) f]> (BufferManager.heap s)) s)
          else None
      | None => None
      end
  | None => None
  end.

(** What the clients of a pool do: a call of its interface, or a write
    into the buffer of a frame. *)
Inductive client_op :=
| Call (c : call)
| Store (page : ptr) (bytes : list Byte.byte).

Definition client_step `{FS : FileStore} (o : client_op) (w : Disk * BufferManager.t)
  : option (Disk * BufferManager.t) :=
  match o with
  | Call c => step c w
  | Store page bytes =>
      match store_data page bytes w.2 with
      | Some s' => Some (w.1, s')
      | None => None
      end
  end.

Fixpoint client_run `{FS : FileStore} (os : list client_op) (w : Disk * BufferManager.t)
  : option (Disk * BufferManager.t) :=
  match os with
  | [] => Some w
  | o :: os' =>
      match client_step o w with
      | Some w' => client_run os' w'
      | None => None
      end
  end.

(** * Properties *)

(** ** Frames *)

Lemma same_identity_refl f : same_identity f f.
Proof. by repeat split. Qed.

Lemma same_identity_trans f g h :
  same_identity f g → same_identity g h → same_identity f h.
Proof.
  unfold same_identity. intros (?&?&?&?) (?&?&?&?). repeat split; congruence.
Qed.

#[local] Hint Resolve same_identity_refl : core.

Lemma lockWrite_inv owned b f r g :
  BufferFrame.lockWrite owned b f = Some (r, g) →
  (r = true ∧ BufferFrame.frameLock f = Unlocked ∧
   g = BufferFrame.set_frameLock WrLocked f) ∨
  (r = false ∧
   (b = true → owned = true ∧ BufferFrame.frameLock f = WrLocked) ∧
   BufferFrame.frameLock f ≠ Unlocked ∧ g = f).
Proof.
  unfold BufferFrame.lockWrite, wrlock.
  destruct b, owned, (BufferFrame.frameLock f) eqn:E; simpl; intros [= <- <-];
    (left; by rewrite ?E) || (right; by rewrite ?E).
Qed.

Lemma lockWrite_blocks owned f :
  BufferFrame.lockWrite owned true f = None ↔
  BufferFrame.frameLock f ≠ Unlocked ∧
  ¬ (owned = true ∧ BufferFrame.frameLock f = WrLocked).
Proof.
  unfold BufferFrame.lockWrite, wrlock.
  destruct owned, (BufferFrame.frameLock f); simpl; split; try done;
    try (by intros [? ?]); try (by intros [_ []]); try (by split; [|intros []]).
Qed.

Lemma lockWrite_try owned f : BufferFrame.lockWrite owned false f ≠ None.
Proof. unfold BufferFrame.lockWrite. by destruct (BufferFrame.frameLock f). Qed.

Lemma lockRead_try owned f : BufferFrame.lockRead owned false f ≠ None.
Proof. unfold BufferFrame.lockRead. by destruct (BufferFrame.frameLock f). Qed.

Lemma lockRead_inv owned b f r g :
  BufferFrame.lockRead owned b f = Some (r, g) →
  (r = true ∧ ∃ l, tryrdlock (BufferFrame.frameLock f) = Some l ∧
                   g = BufferFrame.set_frameLock l f) ∨
  (r = false ∧ (b = true → owned = true) ∧
   BufferFrame.frameLock f = WrLocked ∧ g = f).
Proof.
  unfold BufferFrame.lockRead, rdlock.
  destruct b, owned, (BufferFrame.frameLock f) eqn:E; simpl; intros [= <- <-];
    (left; split; [done|]; eexists; by rewrite ?E) || (right; by rewrite ?E).
Qed.

Lemma lockWrite_identity owned b f r g :
  BufferFrame.lockWrite owned b f = Some (r, g) → same_identity f g.
Proof. intros [(_&_&->)|(_&_&_&->)]%lockWrite_inv; by repeat split. Qed.

Lemma lockRead_identity owned b f r g :
  BufferFrame.lockRead owned b f = Some (r, g) → same_identity f g.
Proof. intros [(_&l&_&->)|(_&_&_&->)]%lockRead_inv; by repeat split. Qed.

(** A blocking call by a thread that does not hold the latch obtains it
    or waits, as the call that does not block obtains it or not. *)
Lemma lock_unowned (excl : bool) f :
  (if excl then BufferFrame.lockWrite false true f
   else BufferFrame.lockRead false true f) =
  match (if excl then trywrlock (BufferFrame.frameLock f)
         else tryrdlock (BufferFrame.frameLock f)) with
  | Some l => Some (true, BufferFrame.set_frameLock l f)
  | None => None
  end.
Proof.
  unfold BufferFrame.lockWrite, BufferFrame.lockRead, wrlock, rdlock.
  by destruct excl, (BufferFrame.frameLock f).
Qed.

Lemma unlock_identity f g : BufferFrame.unlock f = Some g → same_identity f g.
Proof.
  unfold BufferFrame.unlock. destruct (rw_unlock _); intros [= <-].
  by repeat split.
Qed.

Lemma setDirty_identity f : same_identity f (BufferFrame.setDirty f).
Proof. by repeat split. Qed.

Section FrameIO.
Context `{FS : FileStore}.

Lemma readPage_identity f d r f' d' :
  BufferFrame.readPage f d = (r, f', d') → same_identity f f'.
Proof.
  unfold BufferFrame.readPage.
  destruct (BufferFrame.open_or_create _ _ _) as [[] d1];
    [destruct (read_block _ _ _ _ _)|]; intros [= <- <- <-]; by repeat split.
Qed.

Lemma writePage_identity f d r f' d' :
  BufferFrame.writePage f d = (r, f', d') → same_identity f f'.
Proof.
  unfold BufferFrame.writePage.
  destruct (BufferFrame.open_or_create _ _ _) as [[] d1];
    [destruct (write_block _ _ _ _ _)|]; intros [= <- <- <-]; by repeat split.
Qed.

Lemma flush_identity f d r f' d' :
  BufferFrame.flush f d = (r, f', d') → same_identity f f'.
Proof.
  unfold BufferFrame.flush. case_decide; [apply writePage_identity|].
  by intros [= <- <- <-].
Qed.

Lemma get_data_identity f d r b f' d' :
  BufferFrame.get_data f d = (r, b, f', d') → same_identity f f'.
Proof.
  unfold BufferFrame.get_data. case_decide.
  - destruct (BufferFrame.readPage f d) as [[[] g] d1] eqn:E;
      intros [= <- <- <- <-]; eapply readPage_identity, E.
  - by intros [= <- <- <- <-].
Qed.

(** A frame that [flush] leaves without an exception is not dirty, and
    keeps its latch. *)
Lemma flush_done f d f' d' :
  BufferFrame.flush f d = (Done, f', d') →
  BufferFrame.state f' ≠ FrameState.dirty ∧
  BufferFrame.frameLock f' = BufferFrame.frameLock f ∧
  BufferFrame.data f' = BufferFrame.data f.
Proof.
  unfold BufferFrame.flush, BufferFrame.writePage. case_decide as Hd.
  - destruct (BufferFrame.open_or_create _ _ _) as [[] d1];
      [destruct (write_block _ _ _ _ _)|]; intros [= <- <-]; done.
  - by intros [= <- <-].
Qed.

Lemma flush_not_dirty f d :
  BufferFrame.state f ≠ FrameState.dirty → BufferFrame.flush f d = (Done, f, d).
Proof. intros. unfold BufferFrame.flush. by case_decide. Qed.

(** The only exception of [flush] is the file layer's. *)
Lemma flush_throws f d e f' d' :
  BufferFrame.flush f d = (Throws e, f', d') →
  e = io_error ∧ f' = f ∧ BufferFrame.state f = FrameState.dirty.
Proof.
  unfold BufferFrame.flush, BufferFrame.writePage. case_decide as Hd; [|done].
  destruct (BufferFrame.open_or_create _ _ _) as [[] d1];
    [destruct (write_block _ _ _ _ _)|]; intros [= <- <-]; done.
Qed.

Lemma destroy_after_flush f d f' d' :
  BufferFrame.flush f d = (Done, f', d') →
  BufferFrame.destroy f' d' = (Done, d').
Proof.
  intros [Hs _]%flush_done. unfold BufferFrame.destroy.
  by rewrite flush_not_dirty.
Qed.

End FrameIO.

(** ** The pool invariant *)

Lemma made_for_identity ps f g : same_identity f g → made_for ps f → made_for ps g.
Proof.
  unfold same_identity, made_for. intros (->&->&->&->) (?&?&?). done.
Qed.

Lemma wf_new ps pc : wf (BufferManager.new ps pc).
Proof.
  split; simpl; try done.
  - intros p. rewrite lookup_empty. split; [by intros ?%elem_of_nil|by intros []].
  - constructor.
  - rewrite map_size_empty. lia.
Qed.

Lemma wf_set_mtx b s : wf s → wf (BufferManager.set_mtx b s).
Proof. intros []. by split. Qed.

Lemma wf_set_mtx_inv b s : wf (BufferManager.set_mtx b s) → wf s.
Proof. intros []. by split. Qed.

(** Replacing a live frame by one with the same identity. *)
Lemma wf_frame_update s p f g :
  wf s → BufferManager.heap s !! p = Some f → same_identity f g →
  wf (BufferManager.set_heap (<[p := g]> (BufferManager.heap s)) s).
Proof.
  intros [Ht Hh Hq Hn Hs Hf] Hp Hid. split; simpl; try done.
  - intros pid q Hpid. destruct (Ht _ _ Hpid) as (f0 & Hq0 & Hid0).
    destruct (decide (q = p)) as [->|Hne].
    + exists g. rewrite lookup_insert_eq. split; [done|].
      destruct Hid as (-> & _). congruence.
    + exists f0. by rewrite lookup_insert_ne.
  - intros q f0. destruct (decide (q = p)) as [->|Hne].
    + rewrite lookup_insert_eq. intros [= <-].
      destruct Hid as (-> & _). by apply Hh.
    + rewrite lookup_insert_ne by done. apply Hh.
  - intros q. rewrite Hq. destruct (decide (q = p)) as [->|Hne].
    + rewrite lookup_insert_eq, Hp. split; eauto.
    + by rewrite lookup_insert_ne.
  - intros q f0. destruct (decide (q = p)) as [->|Hne].
    + rewrite lookup_insert_eq. intros [= <-].
      eapply made_for_identity; eauto.
    + rewrite lookup_insert_ne by done. apply Hf.
Qed.

Lemma elem_of_erase_remove p q v :
  q ∈ BufferManager.erase_remove p v ↔ q ≠ p ∧ q ∈ v.
Proof. unfold BufferManager.erase_remove. by rewrite list_elem_of_filter. Qed.

Lemma erase_remove_absent p v : p ∉ v → BufferManager.erase_remove p v = v.
Proof.
  unfold BufferManager.erase_remove. induction v as [|q v IH]; [done|].
  intros [Hne Hv]%not_elem_of_cons.
  rewrite filter_cons_True by done. f_equal. by apply IH.
Qed.

Lemma erase_remove_middle p u v :
  NoDup (u ++ p :: v) → BufferManager.erase_remove p (u ++ p :: v) = u ++ v.
Proof.
  intros (Hu & Hdisj & [Hp Hv]%NoDup_cons)%NoDup_app.
  unfold BufferManager.erase_remove. rewrite filter_app, filter_cons_False by naive_solver.
  fold (BufferManager.erase_remove p u) (BufferManager.erase_remove p v).
  rewrite !erase_remove_absent; [done..|].
  intros Hin. eapply Hdisj; [done|]. by left.
Qed.

Lemma erase_remove_app p u v :
  BufferManager.erase_remove p (u ++ v) =
  BufferManager.erase_remove p u ++ BufferManager.erase_remove p v.
Proof. apply filter_app. Qed.

Lemma NoDup_erase_remove p v : NoDup v → NoDup (BufferManager.erase_remove p v).
Proof. apply NoDup_filter. Qed.

(** The hit branch: the frame goes to the end of [lru]. *)
Lemma wf_promote s pid p :
  wf s → BufferManager.bufferFrameMap s !! pid = Some p →
  wf (BufferManager.set_fifo (BufferManager.erase_remove p (BufferManager.fifo s))
        (BufferManager.set_lru
           (BufferManager.erase_remove p (BufferManager.lru s) ++ [p]) s)).
Proof.
  intros [Ht Hh Hq Hn Hs Hf] Hp. split; simpl; try done.
  - intros q. rewrite <- Hq, (assoc_L (++)), <- erase_remove_app.
    rewrite !elem_of_app, elem_of_erase_remove, elem_of_app, list_elem_of_singleton.
    split; [intros [[_ ?]| ->]; [done|]|].
    + apply elem_of_app, Hq. destruct (Ht _ _ Hp) as (f & -> & _). eauto.
    + intros ?. destruct (decide (q = p)); [by right|by left].
  - rewrite (assoc_L (++)), <- erase_remove_app. apply NoDup_app.
    split_and!; [by apply NoDup_erase_remove| |apply NoDup_singleton].
    intros q [Hne _]%elem_of_erase_remove. by rewrite list_elem_of_singleton.
Qed.

(** The search for a replacement candidate. *)
Lemma find_candidate_found q h p h' :
  BufferManager.find_candidate q h = Some (Some p, h') →
  ∃ q1 q2 f, q = q1 ++ p :: q2 ∧ h !! p = Some f ∧
    BufferFrame.frameLock f = Unlocked ∧
    h' = <[p := BufferFrame.set_frameLock WrLocked f]> h ∧
    ∀ r, r ∈ q1 → ∃ g, h !! r = Some g ∧ BufferFrame.frameLock g ≠ Unlocked.
Proof.
  induction q as [|r q IH]; simpl; [done|].
  destruct (h !! r) as [g|] eqn:Hr; [|done].
  destruct (BufferFrame.lockWrite false false g) as [[[] g']|] eqn:Hl.
  - apply lockWrite_inv in Hl as [(_ & Hu & ->)|(? & _)]; [|done].
    intros [= <- <-]. exists [], q, g. split_and!; try done.
    by intros ? ?%elem_of_nil.
  - apply lockWrite_inv in Hl as [(? & _)|(_ & _ & Hu & ->)]; [done|].
    intros (q1 & q2 & f & -> & ? & ? & ? & Hq1)%IH.
    exists (r :: q1), q2, f. split_and!; try done.
    intros r' [->|?]%elem_of_cons; eauto.
  - by apply lockWrite_try in Hl.
Qed.

Lemma find_candidate_none q h h' :
  BufferManager.find_candidate q h = Some (None, h') →
  h' = h ∧
  ∀ r, r ∈ q → ∃ g, h !! r = Some g ∧ BufferFrame.frameLock g ≠ Unlocked.
Proof.
  induction q as [|r q IH]; simpl.
  - intros [= <-]. split; [done|]. by intros ? ?%elem_of_nil.
  - destruct (h !! r) as [g|] eqn:Hr; [|done].
    destruct (BufferFrame.lockWrite false false g) as [[[] g']|] eqn:Hl; [done| |].
    + apply lockWrite_inv in Hl as [(? & _)|(_ & _ & Hu & ->)]; [done|].
      intros [-> Hq]%IH. split; [done|].
      intros r' [->|?]%elem_of_cons; eauto.
    + by apply lockWrite_try in Hl.
Qed.

Lemma find_candidate_all_latched q h :
  (∀ r, r ∈ q → ∃ g, h !! r = Some g ∧ BufferFrame.frameLock g ≠ Unlocked) →
  BufferManager.find_candidate q h = Some (None, h).
Proof.
  induction q as [|r q IH]; simpl; [done|]. intros Hq.
  destruct (Hq r) as (g & -> & Hg); [by left|].
  unfold BufferFrame.lockWrite; simpl.
  destruct (BufferFrame.frameLock g); try done;
    apply IH; intros; apply Hq; by right.
Qed.

Lemma find_candidate_first q1 p q2 h f :
  (∀ r, r ∈ q1 → ∃ g, h !! r = Some g ∧ BufferFrame.frameLock g ≠ Unlocked) →
  h !! p = Some f → BufferFrame.frameLock f = Unlocked →
  BufferManager.find_candidate (q1 ++ p :: q2) h =
    Some (Some p, <[p := BufferFrame.set_frameLock WrLocked f]> h).
Proof.
  intros Hq1 Hp Hu. induction q1 as [|r q1 IH]; simpl.
  - rewrite Hp. unfold BufferFrame.lockWrite. by rewrite Hu.
  - destruct (Hq1 r) as (g & -> & Hg); [by left|].
    unfold BufferFrame.lockWrite; simpl.
    destruct (BufferFrame.frameLock g); try done;
      apply IH; intros; apply Hq1; by right.
Qed.

Lemma find_candidate_defined q h :
  (∀ r, r ∈ q → is_Some (h !! r)) → is_Some (BufferManager.find_candidate q h).
Proof.
  induction q as [|r q IH]; simpl; [eauto|]. intros Hq.
  destruct (Hq r) as (g & ->); [by left|].
  unfold BufferFrame.lockWrite; simpl.
  destruct (BufferFrame.frameLock g); simpl; eauto;
    apply IH; intros; apply Hq; by right.
Qed.

(** Evicting a frame of the FIFO queue. *)
Lemma wf_evict s p f :
  wf s → p ∈ BufferManager.fifo s → BufferManager.heap s !! p = Some f →
  let s' :=
    BufferManager.set_fifo (BufferManager.erase_remove p (BufferManager.fifo s))
      (BufferManager.set_bufferFrameMap
         (delete (BufferFrame.page_id f) (BufferManager.bufferFrameMap s))
         (BufferManager.set_heap (delete p (BufferManager.heap s)) s)) in
  wf s' ∧
  N.of_nat (size (BufferManager.bufferFrameMap s')) < BufferManager.page_count s'.
Proof.
  intros [Ht Hh Hq Hn Hs Hf] Hin Hp. simpl.
  pose proof (Hh _ _ Hp) as Hm.
  assert (Hsz : size (BufferManager.bufferFrameMap s) =
                S (size (delete (BufferFrame.page_id f) (BufferManager.bufferFrameMap s)))).
  { erewrite <- (insert_delete_id (BufferManager.bufferFrameMap s)) at 1 by exact Hm.
    rewrite map_size_insert_None; [done|apply lookup_delete_eq]. }
  split; [split; simpl|lia].
  - intros pid q [Hne Hpid]%lookup_delete_Some.
    destruct (Ht _ _ Hpid) as (g & Hg & Hid). exists g. split; [|done].
    rewrite lookup_delete_ne; [done|]. intros <-. congruence.
  - intros q g [Hne Hg]%lookup_delete_Some.
    rewrite lookup_delete_ne; [by apply Hh|].
    intros Heq. rewrite Heq in Hm. apply Hh in Hg. congruence.
  - intros q. rewrite lookup_delete_is_Some, <- Hq.
    rewrite !elem_of_app, elem_of_erase_remove.
    apply NoDup_app in Hn as (_ & Hdisj & _).
    split.
    + intros [[? ?]|Hl]; [split; [done|by left]|].
      split; [|by right]. intros ->. by eapply Hdisj.
    + intros [Hne [?|?]]; [left|right]; done.
  - apply NoDup_app in Hn as (Hn1 & Hdisj & Hn2). apply NoDup_app.
    split_and!; [by apply NoDup_erase_remove| |done].
    intros q [_ ?]%elem_of_erase_remove. by apply Hdisj.
  - lia.
  - intros q g [_ Hg]%lookup_delete_Some. by eapply Hf.
Qed.

Section Install.
Context `{FS : FileStore}.

(** What [install] does when the page has no entry and the address is
    free. *)
Lemma install_fresh fresh pid excl d s :
  BufferManager.heap s !! fresh = None →
  BufferManager.bufferFrameMap s !! pid = None →
  ∃ l, BufferManager.install fresh pid excl d s =
    (Fixed fresh, d,
     BufferManager.mk (BufferManager.page_size s) (BufferManager.page_count s) false
       (<[pid := fresh]> (BufferManager.bufferFrameMap s))
       (BufferManager.fifo s ++ [fresh]) (BufferManager.lru s)
       (<[fresh := BufferFrame.set_frameLock l
            (BufferFrame.new pid (BufferManager.page_size s) (get_segment_id pid))]>
          (BufferManager.heap s))) ∧
    l = if excl then WrLocked else RdLocked 1.
Proof.
  intros Hfresh Hpid. unfold BufferManager.install, BufferManager.map_insert.
  rewrite Hfresh, Hpid. eexists. split; [|done].
  destruct excl; simpl; unfold BufferManager.set_mtx, BufferManager.set_heap; simpl;
    by rewrite insert_insert_eq.
Qed.

Lemma install_stuck fresh pid excl d s :
  is_Some (BufferManager.heap s !! fresh) →
  BufferManager.install fresh pid excl d s = (Stuck, d, s).
Proof. intros [f Hf]. unfold BufferManager.install. by rewrite Hf. Qed.

Lemma install_wf fresh pid excl d s o d' s' :
  wf s →
  N.of_nat (size (BufferManager.bufferFrameMap s)) < BufferManager.page_count s →
  BufferManager.bufferFrameMap s !! pid = None →
  BufferManager.install fresh pid excl d s = (o, d', s') →
  wf s'.
Proof.
  intros Hwf Hlt Hpid. destruct (BufferManager.heap s !! fresh) as [f|] eqn:Hfresh.
  { rewrite install_stuck by eauto. by intros [= <- <- <-]. }
  destruct (install_fresh fresh pid excl d s Hfresh Hpid) as (l & -> & _).
  intros [= <- <- <-]. destruct Hwf as [Ht Hh Hq Hn Hs Hf].
  assert (Hnin : fresh ∉ BufferManager.fifo s ++ BufferManager.lru s).
  { rewrite Hq, Hfresh. by intros []. }
  split; simpl.
  - intros pid' q [[<- <-]|[Hne Hpid']]%lookup_insert_Some.
    + eexists. by rewrite lookup_insert_eq.
    + destruct (Ht _ _ Hpid') as (g & Hg & Hid). exists g. split; [|done].
      rewrite lookup_insert_ne; [done|]. intros <-. congruence.
  - intros q g [[<- <-]|[Hne Hg]]%lookup_insert_Some; simpl.
    + by rewrite lookup_insert_eq.
    + rewrite lookup_insert_ne; [by apply Hh|].
      intros Heq. apply Hh in Hg. congruence.
  - intros q. rewrite lookup_insert_is_Some', <- Hq.
    rewrite !elem_of_app, list_elem_of_singleton.
    split.
    + intros [[?| ->]|?]; [right; by left|by left|right; by right].
    + intros [->|[?|?]]; [left; by right|left; by left|by right].
  - rewrite <- (assoc_L (++)). simpl.
    apply NoDup_app in Hn as (Hn1 & Hdisj & Hn2).
    apply not_elem_of_app in Hnin as [Hf1 Hf2].
    apply NoDup_app. split_and!; [done| |by apply NoDup_cons].
    intros q Hq1 [->|Hq2]%elem_of_cons; [done|]. by eapply Hdisj.
  - rewrite map_size_insert_None by done. lia.
  - intros q g [[<- <-]|[Hne Hg]]%lookup_insert_Some; [|by eapply Hf].
    by repeat split.
Qed.

End Install.

(** ** [fix_page], branch by branch *)

Section FixPage.
Context `{FS : FileStore}.

Lemma set_heap_same b s :
  BufferManager.mtx s = b →
  BufferManager.set_mtx b (BufferManager.set_heap (BufferManager.heap s) s) = s.
Proof. destruct s; simpl. by intros ->. Qed.

(** The mutex is held: the call never gets past [mtx.lock()]. *)
Lemma fix_page_deadlocked owned fresh pid excl d s :
  BufferManager.mtx s = true →
  BufferManager.fix_page owned fresh pid excl d s = (Deadlocked, d, s).
Proof. intros H. unfold BufferManager.fix_page. by rewrite H. Qed.

(** The page is in the buffer. *)
Lemma fix_page_hit owned fresh pid (excl : bool) d s p f :
  BufferManager.mtx s = false →
  BufferManager.bufferFrameMap s !! pid = Some p →
  BufferManager.heap s !! p = Some f →
  let acquired :=
    if excl then trywrlock (BufferFrame.frameLock f)
    else tryrdlock (BufferFrame.frameLock f) in
  BufferManager.fix_page owned fresh pid excl d s =
    (match acquired with
     | Some _ => Fixed p
     | None =>
         if refuses owned (BufferFrame.frameLock f) then Fixed p else Suspended p
     end, d,
     BufferManager.mk (BufferManager.page_size s) (BufferManager.page_count s) false
       (BufferManager.bufferFrameMap s)
       (BufferManager.erase_remove p (BufferManager.fifo s))
       (BufferManager.erase_remove p (BufferManager.lru s) ++ [p])
       (match acquired with
        | Some l => <[p := BufferFrame.set_frameLock l f]> (BufferManager.heap s)
        | None => BufferManager.heap s
        end)).
Proof.
  intros Hm Hpid Hp. unfold BufferManager.fix_page. rewrite Hm. simpl.
  rewrite Hpid, Hp.
  unfold BufferFrame.lockWrite, BufferFrame.lockRead, wrlock, rdlock, refuses.
  destruct f as [fid fsz fseg foff fst fdt fl].
  destruct excl, owned, fl; simpl; try reflexivity;
    unfold BufferManager.set_heap; simpl; by rewrite insert_id.
Qed.

(** The page is not in the buffer and there is room. *)
Lemma fix_page_room owned fresh pid excl d s :
  BufferManager.mtx s = false →
  BufferManager.bufferFrameMap s !! pid = None →
  N.of_nat (size (BufferManager.bufferFrameMap s)) < BufferManager.page_count s →
  BufferManager.fix_page owned fresh pid excl d s =
    BufferManager.install fresh pid excl d (BufferManager.set_mtx true s).
Proof.
  intros Hm Hpid Hlt. unfold BufferManager.fix_page. rewrite Hm. simpl.
  rewrite Hpid. unfold BufferManager.isFrameAvailable. simpl.
  by rewrite bool_decide_eq_true_2.
Qed.

(** The page is not in the buffer, the table is full and every frame of
    the FIFO queue is latched. *)
Lemma fix_page_full owned fresh pid excl d s :
  BufferManager.mtx s = false →
  BufferManager.bufferFrameMap s !! pid = None →
  ¬ N.of_nat (size (BufferManager.bufferFrameMap s)) < BufferManager.page_count s →
  (∀ r, r ∈ BufferManager.fifo s →
     ∃ g, BufferManager.heap s !! r = Some g ∧ BufferFrame.frameLock g ≠ Unlocked) →
  BufferManager.fix_page owned fresh pid excl d s = (Thrown buffer_full_error, d, s).
Proof.
  intros Hm Hpid Hlt Hq. unfold BufferManager.fix_page. rewrite Hm. simpl.
  rewrite Hpid. unfold BufferManager.isFrameAvailable. simpl.
  rewrite bool_decide_eq_false_2 by done.
  rewrite find_candidate_all_latched by done.
  do 2 f_equal. destruct s; simpl in *. by subst.
Qed.

(** The page is not in the buffer, the table is full and [p] is the first
    frame of the FIFO queue whose latch is free: it is written back if
    dirty and replaced. *)
Lemma fix_page_evict owned fresh pid excl d s q1 q2 p f :
  BufferManager.mtx s = false →
  BufferManager.bufferFrameMap s !! pid = None →
  ¬ N.of_nat (size (BufferManager.bufferFrameMap s)) < BufferManager.page_count s →
  BufferManager.fifo s = q1 ++ p :: q2 →
  (∀ r, r ∈ q1 →
     ∃ g, BufferManager.heap s !! r = Some g ∧ BufferFrame.frameLock g ≠ Unlocked) →
  BufferManager.heap s !! p = Some f →
  BufferFrame.frameLock f = Unlocked →
  let locked := BufferFrame.set_frameLock WrLocked f in
  BufferManager.fix_page owned fresh pid excl d s =
    match BufferFrame.flush locked d with
    | (Throws e, f', d') =>
        (Thrown e, d',
         BufferManager.set_mtx true
           (BufferManager.set_heap (<[p := locked]> (BufferManager.heap s)) s))
    | (Done, f', d') =>
        BufferManager.install fresh pid excl d'
          (BufferManager.mk (BufferManager.page_size s) (BufferManager.page_count s) true
             (delete (BufferFrame.page_id f) (BufferManager.bufferFrameMap s))
             (BufferManager.erase_remove p (BufferManager.fifo s))
             (BufferManager.lru s)
             (delete p (BufferManager.heap s)))
    end.
Proof.
  intros Hm Hpid Hlt Hfifo Hq1 Hp Hu locked.
  unfold BufferManager.fix_page. rewrite Hm. simpl.
  rewrite Hpid. unfold BufferManager.isFrameAvailable. simpl.
  rewrite bool_decide_eq_false_2 by done.
  rewrite Hfifo, (find_candidate_first _ _ _ _ f), <- Hfifo by done.
  rewrite lookup_insert_eq. fold locked.
  destruct (BufferFrame.flush locked d) as [[[|e] g] d'] eqn:Hfl.
  - rewrite (destroy_after_flush _ _ _ _ Hfl).
    apply flush_identity in Hfl as (-> & _). simpl.
    unfold BufferManager.set_fifo, BufferManager.set_bufferFrameMap,
      BufferManager.set_heap; simpl.
    by rewrite delete_insert_eq.
  - apply flush_throws in Hfl as (_ & -> & _).
    unfold BufferManager.set_heap; simpl. by rewrite insert_insert_eq.
Qed.

End FixPage.

(** ** The invariant holds along every call sequence *)

Lemma scan_cases (q : list ptr) (h : gmap ptr BufferFrame.t) :
  (∀ r, r ∈ q → is_Some (h !! r)) →
  (∀ r, r ∈ q → ∃ g, h !! r = Some g ∧ BufferFrame.frameLock g ≠ Unlocked) ∨
  (∃ q1 p q2 f, q = q1 ++ p :: q2 ∧
     (∀ r, r ∈ q1 → ∃ g, h !! r = Some g ∧ BufferFrame.frameLock g ≠ Unlocked) ∧
     h !! p = Some f ∧ BufferFrame.frameLock f = Unlocked).
Proof.
  induction q as [|r q IH]; intros Hq.
  - left. by intros ? ?%elem_of_nil.
  - destruct (Hq r) as [g Hg]; [by left|].
    destruct (BufferFrame.frameLock g) eqn:Hl.
    { right. exists [], r, q, g. split_and!; try done. by intros ? ?%elem_of_nil. }
    all: destruct IH as [Hall|(q1 & p & q2 & f & -> & Hq1 & Hp & Hu)];
      [intros; apply Hq; by right| |].
    all: try (left; intros r' [->|?]%elem_of_cons; [exists g; by rewrite Hl|by apply Hall]).
    all: right; exists (r :: q1), p, q2, f; split_and!; try done;
      intros r' [->|?]%elem_of_cons; [exists g; by rewrite Hl|by apply Hq1].
Qed.

Lemma wf_fifo_live s r :
  wf s → r ∈ BufferManager.fifo s → is_Some (BufferManager.heap s !! r).
Proof. intros Hwf Hr. apply (wf_queues _ Hwf), elem_of_app. by left. Qed.

Section Preservation.
Context `{FS : FileStore}.

Lemma fix_page_wf owned fresh pid excl d s o d' s' :
  wf s → BufferManager.fix_page owned fresh pid excl d s = (o, d', s') → wf s'.
Proof.
  intros Hwf. destruct (BufferManager.mtx s) eqn:Hm.
  { rewrite fix_page_deadlocked by done. by intros [= <- <- <-]. }
  destruct (BufferManager.bufferFrameMap s !! pid) as [p|] eqn:Hpid.
  - destruct (wf_table _ Hwf _ _ Hpid) as (f & Hp & _).
    rewrite (fix_page_hit _ _ _ _ _ _ p f) by done. intros [= <- <- <-].
    pose proof (wf_promote _ _ _ Hwf Hpid) as Hwf'.
    destruct (if excl then _ else _) as [l|].
    + apply (wf_frame_update _ p f (BufferFrame.set_frameLock l f)) in Hwf';
        [|done|by repeat split].
      destruct Hwf'. by split.
    + destruct Hwf'. by split.
  - destruct (decide (N.of_nat (size (BufferManager.bufferFrameMap s))
                      < BufferManager.page_count s)) as [Hlt|Hge].
    { rewrite fix_page_room by done.
      apply install_wf; [by apply wf_set_mtx|done..]. }
    destruct (scan_cases (BufferManager.fifo s) (BufferManager.heap s))
      as [Hall|(q1 & p & q2 & f & Hfifo & Hq1 & Hp & Hu)].
    { intros r. by apply wf_fifo_live. }
    { rewrite fix_page_full by done. by intros [= <- <- <-]. }
    rewrite (fix_page_evict _ _ _ _ _ _ q1 q2 p f) by done.
    destruct (BufferFrame.flush _ d) as [[[|e] g] d1] eqn:Hfl.
    + assert (Hin : p ∈ BufferManager.fifo s) by (rewrite Hfifo; set_solver).
      destruct (wf_evict s p f Hwf Hin Hp) as [Hwf' Hlt].
      apply install_wf.
      * destruct Hwf'. by split.
      * exact Hlt.
      * simpl. by apply lookup_delete_None; right.
    + intros [= <- <- <-]. apply wf_set_mtx.
      apply (wf_frame_update _ p f); [done..|by repeat split].
Qed.

Lemma unfix_page_wf p b s s' :
  wf s → BufferManager.unfix_page p b s = Some s' → wf s'.
Proof.
  intros Hwf. unfold BufferManager.unfix_page.
  destruct (BufferManager.heap s !! p) as [f|] eqn:Hp; [|done].
  destruct (BufferFrame.unlock _) as [g|] eqn:Hu; [|done].
  intros [= <-]. apply (wf_frame_update _ p f); [done..|].
  apply unlock_identity in Hu.
  destruct b; [|done]. eapply same_identity_trans; [apply setDirty_identity|done].
Qed.

Lemma resume_wf p b s s' :
  wf s → resume p b s = Some s' → wf s'.
Proof.
  intros Hwf. unfold resume.
  destruct (BufferManager.heap s !! p) as [f|] eqn:Hp; [|done].
  destruct (if b then _ else _) as [[r g]|] eqn:Hl; [|done].
  intros [= <-]. apply (wf_frame_update _ p f); [done..|].
  destruct b; [by eapply lockWrite_identity|by eapply lockRead_identity].
Qed.

Lemma get_data_wf p d s r buf d' s' :
  wf s → frame_get_data p d s = Some (r, buf, d', s') → wf s'.
Proof.
  intros Hwf. unfold frame_get_data.
  destruct (BufferManager.heap s !! p) as [f|] eqn:Hp; [|done].
  destruct (BufferFrame.get_data f d) as [[[r0 b0] g] d0] eqn:Hg.
  intros [= <- <- <- <-]. apply (wf_frame_update _ p f); [done..|].
  by eapply get_data_identity.
Qed.

Lemma step_wf c d s d' s' :
  wf s → step c (d, s) = Some (d', s') → wf s'.
Proof.
  intros Hwf. destruct c as [owned fresh pid excl|p b|p|p b]; simpl.
  - destruct (BufferManager.fix_page _ _ _ _ _ _) as [[o d1] s1] eqn:Hfix.
    apply fix_page_wf in Hfix; [|done].
    destruct o; intros [= <- <-]; done.
  - destruct (BufferManager.unfix_page _ _ _) as [s1|] eqn:Hu; [|done].
    intros [= <- <-]. by eapply unfix_page_wf.
  - destruct (frame_get_data _ _ _) as [[[[r buf] d1] s1]|] eqn:Hg; [|done].
    intros [= <- <-]. by eapply get_data_wf.
  - destruct (resume _ _ _) as [s1|] eqn:Hr; [|done].
    intros [= <- <-]. by eapply resume_wf.
Qed.

Lemma run_wf cs d s d' s' :
  wf s → run cs (d, s) = Some (d', s') → wf s'.
Proof.
  revert d s. induction cs as [|c cs IH]; intros d s Hwf; cbn [run].
  - by intros [= <- <-].
  - destruct (step c (d, s)) as [[d1 s1]|] eqn:Hstep; [|done].
    apply IH. by eapply step_wf.
Qed.

(** The configured sizes never change. *)
Lemma step_config c d s d' s' :
  step c (d, s) = Some (d', s') →
  BufferManager.page_size s' = BufferManager.page_size s ∧
  BufferManager.page_count s' = BufferManager.page_count s.
Proof.
  destruct c as [owned fresh pid excl|p b|p|p b]; simpl;
    unfold BufferManager.fix_page, BufferManager.install, BufferManager.map_insert,
      BufferManager.unfix_page, frame_get_data, resume;
    intros Hs; repeat case_match; by simplify_eq/=.
Qed.

Lemma run_config cs d s d' s' :
  run cs (d, s) = Some (d', s') →
  BufferManager.page_size s' = BufferManager.page_size s ∧
  BufferManager.page_count s' = BufferManager.page_count s.
Proof.
  revert d s. induction cs as [|c cs IH]; intros d s; cbn [run].
  - by intros [= <- <-].
  - destruct (step c (d, s)) as [[d1 s1]|] eqn:Hstep; [|done].
    intros [-> ->]%IH. by eapply step_config.
Qed.

End Preservation.

(** * The claims *)

(** ** Page identifiers and file offsets *)

Lemma get_segment_id_high_bits pid :
  pid < 2 ^ 64 →
  get_segment_id pid = N.shiftr pid 48 ∧ get_segment_id pid = pid / 2 ^ 48 ∧
  get_segment_id pid < 2 ^ 16.
Proof.
  intros Hpid. unfold get_segment_id, wrap16. rewrite N.shiftr_div_pow2.
  assert (pid / 2 ^ 48 < 2 ^ 16).
  { apply N.Div0.div_lt_upper_bound. by change (2 ^ 48 * 2 ^ 16) with (2 ^ 64). }
  by rewrite N.mod_small.
Qed.

Lemma get_segment_page_id_low_bits pid :
  get_segment_page_id pid = pid mod 2 ^ 48 ∧ get_segment_page_id pid < 2 ^ 48.
Proof.
  unfold get_segment_page_id. change (N.shiftl 1 48 - 1) with (N.ones 48).
  rewrite N.land_ones. split; [done|]. by apply N.mod_lt.
Qed.

Lemma offset_exact pid ps :
  ps ≤ 2 ^ 16 →
  wrap64 (get_segment_page_id pid * ps) = get_segment_page_id pid * ps.
Proof.
  intros Hps. destruct (get_segment_page_id_low_bits pid) as [_ Hlt].
  unfold wrap64. apply N.mod_small.
  change (2 ^ 64) with (2 ^ 48 * 2 ^ 16). nia.
Qed.

Section Claims.
Context `{FS : FileStore}.

(** Every frame of a pool made by the constructor and driven by calls
    was made by [fix_page] for the pool's page size. *)
Lemma reachable_wf ps pc cs d0 d s :
  run cs (d0, BufferManager.new ps pc) = Some (d, s) →
  wf s ∧ BufferManager.page_size s = ps ∧ BufferManager.page_count s = pc.
Proof.
  intros Hrun. split; [eapply run_wf, Hrun; apply wf_new|].
  by apply run_config in Hrun.
Qed.

(** C9: for a 64-bit page id, [get_segment_id] is [pid >> 48] (the high
    16 bits), [get_segment_page_id] is [pid & ((1 << 48) - 1)] (the low
    48 bits), and every frame of the pool keeps, as the offset that
    [readPage] and [writePage] pass to the file layer, the product of
    the page index and the page size in [size_t] arithmetic, which is
    the exact product for page sizes up to 2^16. *)
Theorem page_id_layout ps pc cs d0 d s :
  run cs (d0, BufferManager.new ps pc) = Some (d, s) →
  (∀ pid, pid < 2 ^ 64 →
     get_segment_id pid = N.shiftr pid 48 ∧
     get_segment_id pid = pid / 2 ^ 48 ∧
     get_segment_page_id pid = N.land pid (N.shiftl 1 48 - 1) ∧
     get_segment_page_id pid = pid mod 2 ^ 48) ∧
  (∀ p f, BufferManager.heap s !! p = Some f →
     let pid := BufferFrame.page_id f in
     let name := to_string (get_segment_id pid) in
     let offset := wrap64 (get_segment_page_id pid * ps) in
     BufferFrame.pageOffsetInFile f = offset ∧
     (ps ≤ 2 ^ 16 → offset = get_segment_page_id pid * ps) ∧
     (∀ d1 d2, BufferFrame.open_or_create name READ d1 = (true, d2) →
        BufferFrame.readPage f d1 =
          match read_block name offset ps (malloc ps) d2 with
          | Some b =>
              (Done, BufferFrame.set_state FrameState.clean
                       (BufferFrame.set_data (Some b) f), d2)
          | None => (Throws io_error, BufferFrame.set_data (Some (malloc ps)) f, d2)
          end) ∧
     (∀ d1 d2, BufferFrame.open_or_create name WRITE d1 = (true, d2) →
        BufferFrame.writePage f d1 =
          match write_block name (BufferFrame.data f) offset ps d2 with
          | Some d3 => (Done, BufferFrame.set_state FrameState.clean f, d3)
          | None => (Throws io_error, f, d2)
          end)).
Proof.
  intros (Hwf & Hps & _)%reachable_wf. split.
  - intros pid Hpid. destruct (get_segment_id_high_bits pid Hpid) as (? & ? & _).
    destruct (get_segment_page_id_low_bits pid) as [? _]. done.
  - intros p f Hp pid name offset.
    destruct (wf_frames _ Hwf _ _ Hp) as (Hsz & Hseg & Hoff).
    rewrite Hps in Hsz, Hoff. split_and!.
    + done.
    + apply offset_exact.
    + intros d1 d2 Hopen. unfold BufferFrame.readPage. simpl.
      rewrite Hseg, Hoff, Hsz. fold pid name offset. by rewrite Hopen.
    + intros d1 d2 Hopen. unfold BufferFrame.writePage.
      rewrite Hseg, Hoff, Hsz. fold pid name offset. by rewrite Hopen.
Qed.

(** C7: [flush] on a dirty frame writes the buffer to the frame's file at
    the frame's offset and makes the frame clean; on a clean or empty
    frame it does nothing; and flushing twice in a row leaves the frame
    and the files as a single flush does. *)
Theorem flush_writes_back_once f d :
  (∀ d1 d2,
     BufferFrame.state f = FrameState.dirty →
     BufferFrame.open_or_create (to_string (BufferFrame.segment_id f)) WRITE d
       = (true, d1) →
     write_block (to_string (BufferFrame.segment_id f)) (BufferFrame.data f)
       (BufferFrame.pageOffsetInFile f) (BufferFrame.page_size f) d1 = Some d2 →
     BufferFrame.flush f d = (Done, BufferFrame.set_state FrameState.clean f, d2)) ∧
  (BufferFrame.state f ≠ FrameState.dirty → BufferFrame.flush f d = (Done, f, d)) ∧
  BufferFrame.flush_twice f d = BufferFrame.flush f d.
Proof.
  split_and!.
  - intros d1 d2 Hs Hopen Hw. unfold BufferFrame.flush, BufferFrame.writePage.
    rewrite decide_True by done. by rewrite Hopen, Hw.
  - apply flush_not_dirty.
  - unfold BufferFrame.flush_twice.
    destruct (BufferFrame.flush f d) as [[[|e] f'] d'] eqn:Hfl; [|done].
    apply flush_done in Hfl as [Hs _]. by apply flush_not_dirty.
Qed.


(** C3: when [fix_page] leaves by [buffer_full_error], the pool is as it
    was before the call: table, queues, frames, and the files. *)
Theorem buffer_full_leaves_state owned fresh pid excl d s d' s' :
  BufferManager.fix_page owned fresh pid excl d s = (Thrown buffer_full_error, d', s') →
  d' = d ∧ s' = s.
Proof.
  unfold BufferManager.fix_page, BufferManager.install, BufferManager.map_insert.
  destruct (BufferManager.mtx s) eqn:Hm; [done|]. simpl.
  destruct (BufferManager.bufferFrameMap s !! pid) as [p|].
  { intros H. repeat case_match; simplify_eq. }
  destruct (BufferManager.isFrameAvailable _).
  { intros H. repeat case_match; simplify_eq. }
  destruct (BufferManager.find_candidate _ _) as [[[p|] h]|] eqn:Hc; [|..|done].
  - intros H. destruct (h !! p) as [f|]; [|done].
    destruct (BufferFrame.flush f d) as [[[|e] f'] d1] eqn:Hfl.
    + repeat case_match; simplify_eq.
    + apply flush_throws in Hfl as (-> & _). done.
  - apply find_candidate_none in Hc as [-> _]. intros [= <- <-].
    split; [done|]. destruct s; simpl in *. by subst.
Qed.

(** C10: in a pool constructed with [page_count = 0], whatever calls
    were made before, [fix_page] throws [buffer_full_error] for every
    page id and in both modes, and changes nothing. *)
Theorem zero_capacity_always_full ps cs d0 d s :
  run cs (d0, BufferManager.new ps 0) = Some (d, s) →
  s = BufferManager.new ps 0 ∧ d = d0 ∧
  BufferManager.isFrameAvailable s = false ∧
  BufferManager.find_candidate (BufferManager.fifo s) (BufferManager.heap s)
    = Some (None, BufferManager.heap s) ∧
  ∀ owned fresh pid excl,
    BufferManager.fix_page owned fresh pid excl d s = (Thrown buffer_full_error, d, s).
Proof.
  assert (Hfix : ∀ owned fresh pid excl d1,
    BufferManager.fix_page owned fresh pid excl d1 (BufferManager.new ps 0)
      = (Thrown buffer_full_error, d1, BufferManager.new ps 0)).
  { intros. apply fix_page_full; try done. by intros ? ?%elem_of_nil. }
  intros Hrun.
  assert (s = BufferManager.new ps 0 ∧ d = d0) as [-> ->].
  { revert Hrun. revert d0. induction cs as [|c cs IH]; intros d1; cbn [run].
    - by intros [= <- <-].
    - destruct c as [owned fresh pid excl|p b|p|p b]; simpl; [|done..].
      rewrite Hfix. apply IH. }
  split_and!; try done.
Qed.

(** The case analysis of [fix_page] on a well-formed pool: the goal
    [fix_page ... = r → _] is rewritten with the equation of each
    branch. *)
Ltac fix_page_branches Hwf s pid :=
  destruct (BufferManager.mtx s) eqn:Hm;
  [ rewrite fix_page_deadlocked by done
  | destruct (BufferManager.bufferFrameMap s !! pid) as [p|] eqn:Hpid;
    [ destruct (wf_table _ Hwf _ _ Hpid) as (f & Hp & Hfid);
      rewrite (fix_page_hit _ _ _ _ _ _ p f) by done
    | destruct (decide (N.of_nat (size (BufferManager.bufferFrameMap s))
                        < BufferManager.page_count s)) as [Hlt|Hge];
      [ rewrite fix_page_room by done
      | destruct (scan_cases (BufferManager.fifo s) (BufferManager.heap s))
          as [Hall|(q1 & v & q2 & fv & Hfifo & Hq1 & Hv & Hu)];
        [ by (intros ?; apply wf_fifo_live)
        | rewrite fix_page_full by done
        | rewrite (fix_page_evict _ _ _ _ _ _ q1 q2 v fv) by done ] ] ] ].

(** C2: along every sequence of calls on a freshly constructed pool the
    frame table holds at most [page_count] frames; and when [fix_page]
    enters a page into the table, it either saw fewer than [page_count]
    entries or removed the entry of a frame of the FIFO queue. *)
Theorem table_size_bounded ps pc cs d0 d s :
  run cs (d0, BufferManager.new ps pc) = Some (d, s) →
  N.of_nat (size (BufferManager.bufferFrameMap s)) ≤ pc ∧
  ∀ owned fresh pid excl o d' s',
    BufferManager.fix_page owned fresh pid excl d s = (o, d', s') →
    BufferManager.bufferFrameMap s !! pid = None →
    is_Some (BufferManager.bufferFrameMap s' !! pid) →
    N.of_nat (size (BufferManager.bufferFrameMap s')) ≤ pc ∧
    ((BufferManager.isFrameAvailable s = true ∧
      BufferManager.bufferFrameMap s' = <[pid := fresh]> (BufferManager.bufferFrameMap s)) ∨
     (BufferManager.isFrameAvailable s = false ∧
      ∃ victim p,
        BufferManager.bufferFrameMap s !! victim = Some p ∧
        p ∈ BufferManager.fifo s ∧
        BufferManager.bufferFrameMap s' =
          <[pid := fresh]> (delete victim (BufferManager.bufferFrameMap s)))).
Proof.
  intros (Hwf & Hps & Hpc)%reachable_wf.
  split; [rewrite <- Hpc; apply Hwf|].
  intros owned fresh pid excl o d' s' Hfix Hnone Hsome.
  split.
  { apply fix_page_wf in Hfix as Hwf'; [|done].
    assert (BufferManager.page_count s' = pc) as <-; [|apply Hwf'].
    rewrite <- Hpc. revert Hfix. clear.
    unfold BufferManager.fix_page, BufferManager.install, BufferManager.map_insert.
    intros Hs; repeat case_match; by simplify_eq/=. }
  revert Hfix. fix_page_branches Hwf s pid.
  - intros [= <- <- <-]. rewrite Hnone in Hsome. by destruct Hsome.
  - done.
  - intros Hfix. left.
    split; [unfold BufferManager.isFrameAvailable; by rewrite bool_decide_eq_true_2|].
    revert Hfix. destruct (BufferManager.heap s !! fresh) as [g|] eqn:Hfresh.
    + rewrite install_stuck by (simpl; eauto). intros [= <- <- <-].
      simpl in Hsome. rewrite Hpid in Hsome. by destruct Hsome.
    + destruct (install_fresh fresh pid excl d (BufferManager.set_mtx true s))
        as (l & -> & _); [done..|]. by intros [= <- <- <-].
  - intros [= <- <- <-]. rewrite Hpid in Hsome. by destruct Hsome.
  - intros Hfix. right.
    split; [unfold BufferManager.isFrameAvailable; by rewrite bool_decide_eq_false_2|].
    assert (Hin : v ∈ BufferManager.fifo s) by (rewrite Hfifo; set_solver).
    exists (BufferFrame.page_id fv), v. split_and!; [by apply (wf_heap _ Hwf)|done|].
    revert Hfix. destruct (BufferFrame.flush _ d) as [[[|e] g] d1] eqn:Hfl.
    + set (s0 := BufferManager.mk _ _ _ _ _ _ _).
      assert (Hnone0 : BufferManager.bufferFrameMap s0 !! pid = None).
      { simpl. apply lookup_delete_None. by right. }
      destruct (BufferManager.heap s0 !! fresh) as [g0|] eqn:Hfresh.
      * rewrite install_stuck by eauto. intros [= <- <- <-].
        rewrite Hnone0 in Hsome. by destruct Hsome.
      * destruct (install_fresh fresh pid excl d1 s0) as (l & -> & _); [done..|].
        by intros [= <- <- <-].
    + intros [= <- <- <-]. simpl in Hsome. rewrite Hpid in Hsome. by destruct Hsome.
Qed.

(** C5: after every call, each frame of the frame table is in exactly
    one of the FIFO and the LRU queue, and once; the queues hold no
    other frames; and no two frames are held for the same page id. *)
Theorem frames_in_exactly_one_queue ps pc cs d0 d s :
  run cs (d0, BufferManager.new ps pc) = Some (d, s) →
  (∀ pid p, BufferManager.bufferFrameMap s !! pid = Some p →
     (p ∈ BufferManager.fifo s ∧ p ∉ BufferManager.lru s) ∨
     ((p ∉ BufferManager.fifo s) ∧ p ∈ BufferManager.lru s)) ∧
  NoDup (BufferManager.fifo s ++ BufferManager.lru s) ∧
  (∀ p, p ∈ BufferManager.fifo s ++ BufferManager.lru s →
     ∃ pid, BufferManager.bufferFrameMap s !! pid = Some p) ∧
  (∀ pid p, BufferManager.bufferFrameMap s !! pid = Some p →
     ∃ f, BufferManager.heap s !! p = Some f ∧ BufferFrame.page_id f = pid) ∧
  (∀ p1 p2 f1 f2,
     BufferManager.heap s !! p1 = Some f1 → BufferManager.heap s !! p2 = Some f2 →
     BufferFrame.page_id f1 = BufferFrame.page_id f2 → p1 = p2).
Proof.
  intros (Hwf & _)%reachable_wf. destruct Hwf as [Ht Hh Hq Hn Hs Hf].
  split_and!; [|done| |done|].
  - intros pid p Hp. destruct (Ht _ _ Hp) as (f & Hlive & _).
    assert (Hin : p ∈ BufferManager.fifo s ++ BufferManager.lru s)
      by (apply Hq; eauto).
    apply NoDup_app in Hn as (_ & Hdisj & _).
    apply elem_of_app in Hin as [Hin|Hin]; [left|right]; split; try done.
    + by apply Hdisj.
    + intros Hin'. by eapply Hdisj.
  - intros p [f Hp]%Hq. eauto.
  - intros p1 p2 f1 f2 H1 H2 Heq. apply Hh in H1, H2. congruence.
Qed.

(** C4: when the requested page is in the buffer, [fix_page] takes its
    frame out of the queue that holds it and appends it to the LRU
    queue: from the FIFO queue on the first reuse, within the LRU queue
    on later ones.  No call moves a frame of the LRU queue to the FIFO
    queue. *)
Theorem reuse_moves_to_lru_tail ps pc cs d0 d s :
  run cs (d0, BufferManager.new ps pc) = Some (d, s) →
  (∀ owned fresh pid excl p o d' s',
     BufferManager.bufferFrameMap s !! pid = Some p →
     BufferManager.fix_page owned fresh pid excl d s = (o, d', s') →
     o ≠ Deadlocked →
     (o = Fixed p ∨ o = Suspended p) ∧
     BufferManager.fifo s' = BufferManager.erase_remove p (BufferManager.fifo s) ∧
     BufferManager.lru s' = BufferManager.erase_remove p (BufferManager.lru s) ++ [p] ∧
     (p ∉ BufferManager.fifo s') ∧
     last (BufferManager.lru s') = Some p ∧
     (p ∈ BufferManager.fifo s →
        ∃ q1 q2, BufferManager.fifo s = q1 ++ p :: q2 ∧
                 BufferManager.fifo s' = q1 ++ q2 ∧
                 BufferManager.lru s' = BufferManager.lru s ++ [p]) ∧
     (p ∈ BufferManager.lru s →
        ∃ l1 l2, BufferManager.lru s = l1 ++ p :: l2 ∧
                 BufferManager.lru s' = (l1 ++ l2) ++ [p] ∧
                 BufferManager.fifo s' = BufferManager.fifo s)) ∧
  (∀ c d' s' p,
     step c (d, s) = Some (d', s') →
     p ∈ BufferManager.lru s →
     p ∈ BufferManager.lru s' ∧ p ∉ BufferManager.fifo s').
Proof.
  intros (Hwf & _)%reachable_wf.
  pose proof (wf_nodup _ Hwf) as Hn.
  apply NoDup_app in Hn as (Hn1 & Hdisj & Hn2).
  split.
  - intros owned fresh pid excl p o d' s' Hpid.
    destruct (BufferManager.mtx s) eqn:Hm.
    { rewrite fix_page_deadlocked by done. by intros [= <- <- <-]. }
    destruct (wf_table _ Hwf _ _ Hpid) as (f & Hp & _).
    rewrite (fix_page_hit _ _ _ _ _ _ p f) by done.
    intros [= <- <- <-] _. simpl. split_and!; try done.
    + destruct (if excl then _ else _); [eauto|]. destruct (refuses _ _); eauto.
    + by intros [? _]%elem_of_erase_remove.
    + apply last_snoc.
    + intros Hin. apply list_elem_of_split in Hin as (q1 & q2 & Hq).
      exists q1, q2. rewrite Hq in Hn1 |- *.
      split_and!; [done|by apply erase_remove_middle|].
      rewrite erase_remove_absent; [done|].
      apply Hdisj. rewrite Hq. set_solver.
    + intros Hin. apply list_elem_of_split in Hin as Hsplit.
      destruct Hsplit as (l1 & l2 & Hl).
      exists l1, l2. rewrite Hl in Hn2 |- *.
      split_and!; [done|by rewrite erase_remove_middle|].
      apply erase_remove_absent. intros Hin'. by eapply Hdisj.
  - intros c d' s' r Hstep Hin.
    assert (Hnf : r ∉ BufferManager.fifo s) by (intros ?; by eapply Hdisj).
    assert (Hlive : is_Some (BufferManager.heap s !! r)).
    { apply (wf_queues _ Hwf), elem_of_app. by right. }
    revert Hstep. destruct c as [owned fresh pid excl|q b|q|q b]; simpl.
    + destruct (BufferManager.fix_page _ _ _ _ _ _) as [[o d1] s1] eqn:Hfix.
      intros Hs. assert (s1 = s') as ->.
      { destruct o; by simplify_eq. }
      clear Hs. revert Hfix. fix_page_branches Hwf s pid.
      * by intros [= <- <- <-].
      * intros [= <- <- <-]. simpl. split.
        -- apply elem_of_app. destruct (decide (r = p)) as [->|Hne].
           ++ right. by apply list_elem_of_singleton.
           ++ left. by apply elem_of_erase_remove.
        -- by intros [_ ?]%elem_of_erase_remove.
      * destruct (BufferManager.heap s !! fresh) as [g|] eqn:Hfresh.
        -- rewrite install_stuck by (simpl; eauto). by intros [= <- <- <-].
        -- destruct (install_fresh fresh pid excl d (BufferManager.set_mtx true s))
             as (l & -> & _); [done..|]. intros [= <- <- <-]. simpl.
           split; [done|]. intros [?|Heq%list_elem_of_singleton]%elem_of_app; [done|].
           rewrite Heq, Hfresh in Hlive. by destruct Hlive.
      * by intros [= <- <- <-].
      * destruct (BufferFrame.flush _ d) as [[[|e] g] d2] eqn:Hfl;
          [|by intros [= <- <- <-]].
        set (s0 := BufferManager.mk _ _ _ _ _ _ _).
        assert (Hv' : v ≠ r).
        { intros ->. apply Hnf. rewrite Hfifo. set_solver. }
        destruct (BufferManager.heap s0 !! fresh) as [g0|] eqn:Hfresh.
        -- rewrite install_stuck by eauto. intros [= <- <- <-]. simpl.
           split; [done|]. by intros [_ ?]%elem_of_erase_remove.
        -- destruct (install_fresh fresh pid excl d2 s0) as (l & -> & _).
           { done. }
           { simpl. apply lookup_delete_None. by right. }
           intros [= <- <- <-]. simpl. split; [done|].
           intros [[_ ?]%elem_of_erase_remove|Heq%list_elem_of_singleton]%elem_of_app;
             [done|].
           simpl in Hfresh. rewrite <- Heq, lookup_delete_ne in Hfresh by done.
           rewrite Hfresh in Hlive. by destruct Hlive.
    + unfold BufferManager.unfix_page. intros Hs.
      repeat case_match; by simplify_eq/=.
    + unfold frame_get_data. intros Hs.
      repeat case_match; by simplify_eq/=.
    + unfold resume. intros Hs.
      repeat case_match; by simplify_eq/=.
Qed.

(** C6, as the code has it: [fix_page] reads nothing.  The frame it
    creates for a page that was not in the buffer is empty and has no
    buffer, and is entered in the table and at the end of the FIFO
    queue.  The read happens in [get_data]; when it fails there, the
    exception leaves [get_data] with the table and both queues as they
    were and the frame still empty. *)
Theorem read_failure_keeps_frame ps pc cs d0 d s :
  run cs (d0, BufferManager.new ps pc) = Some (d, s) →
  ∀ owned fresh pid excl d1 s1,
    BufferManager.bufferFrameMap s !! pid = None →
    BufferManager.fix_page owned fresh pid excl d s = (Fixed fresh, d1, s1) →
    (∃ f, BufferManager.heap s1 !! fresh = Some f ∧
          BufferFrame.state f = FrameState.empty ∧ BufferFrame.data f = None) ∧
    BufferManager.bufferFrameMap s1 !! pid = Some fresh ∧
    last (BufferManager.fifo s1) = Some fresh ∧
    ∀ e b d2 s2,
      frame_get_data fresh d1 s1 = Some (Throws e, b, d2, s2) →
      e = io_error ∧ b = None ∧
      BufferManager.bufferFrameMap s2 = BufferManager.bufferFrameMap s1 ∧
      BufferManager.fifo s2 = BufferManager.fifo s1 ∧
      BufferManager.lru s2 = BufferManager.lru s1 ∧
      ∃ f', BufferManager.heap s2 !! fresh = Some f' ∧
            BufferFrame.state f' = FrameState.empty.
Proof.
  intros (Hwf & _)%reachable_wf owned fresh pid excl d1 s1 Hnone Hfix.
  assert (∃ l s0,
    BufferManager.bufferFrameMap s1 = <[pid := fresh]> (BufferManager.bufferFrameMap s0) ∧
    BufferManager.fifo s1 = BufferManager.fifo s0 ++ [fresh] ∧
    BufferManager.heap s1 =
      <[fresh := BufferFrame.set_frameLock l
           (BufferFrame.new pid (BufferManager.page_size s0) (get_segment_id pid))]>
        (BufferManager.heap s0)) as (l & s0 & Hm1 & Hq1 & Hh1).
  { revert Hfix. fix_page_branches Hwf s pid; try done.
    - destruct (BufferManager.heap s !! fresh) as [g|] eqn:Hfresh.
      + by rewrite install_stuck by (simpl; eauto).
      + destruct (install_fresh fresh pid excl d (BufferManager.set_mtx true s))
          as (l & -> & _); [done..|].
        intros [= <- <-]. by exists l, (BufferManager.set_mtx true s).
    - destruct (BufferFrame.flush _ d) as [[[|e] g] d2] eqn:Hfl; [|done].
      set (s0 := BufferManager.mk _ _ _ _ _ _ _).
      destruct (BufferManager.heap s0 !! fresh) as [g0|] eqn:Hfresh.
      + by rewrite install_stuck by eauto.
      + destruct (install_fresh fresh pid excl d2 s0) as (l & -> & _).
        { done. }
        { simpl. apply lookup_delete_None. by right. }
        intros [= <- <-]. by exists l, s0. }
  split_and!.
  - rewrite Hh1, lookup_insert_eq. eauto.
  - by rewrite Hm1, lookup_insert_eq.
  - by rewrite Hq1, last_snoc.
  - intros e b d2 s2. unfold frame_get_data.
    rewrite Hh1, lookup_insert_eq.
    unfold BufferFrame.get_data, BufferFrame.readPage. simpl.
    destruct (BufferFrame.open_or_create _ _ _) as [[] d3];
      [destruct (read_block _ _ _ _ _)|]; intros [= <- <- <- <-]; simpl;
      (split_and!; [done..|]); rewrite lookup_insert_eq; eauto.
Qed.

End Claims.

(** ** The scenarios of the specification, run on the model *)

(** S1: the first fix puts page 1 in the FIFO queue, the second moves it to
    the LRU queue. *)
Example scenario_fresh_write_cycle :
  snapshots 10 [FixPage false 101 1 true] = Some (Some [1], Some []) ∧
  snapshots 10 [FixPage false 101 1 true; GetData 101; UnfixPage 101 true;
                FixPage false 102 1 false]
    = Some (Some [], Some [1]).
Proof. split; vm_compute; reflexivity. Qed.

(** S2: with pages 1 to 10 touched once, fixing page 11 replaces page 1. *)
Example scenario_fifo_first :
  snapshots 10 (touch_upto 10) = Some (Some [1; 2; 3; 4; 5; 6; 7; 8; 9; 10], Some []) ∧
  snapshots 10 (touch_upto 10 ++ [FixPage false 111 11 false])
    = Some (Some [2; 3; 4; 5; 6; 7; 8; 9; 10; 11], Some []).
Proof. split; vm_compute; reflexivity. Qed.

(** S3: page 1, touched again, is in the LRU queue; fixing page 11
    replaces page 2. *)
Example scenario_promotion :
  snapshots 10 (touch_upto 10 ++ touch 101 1 ++ [FixPage false 111 11 false])
    = Some (Some [3; 4; 5; 6; 7; 8; 9; 10; 11], Some [1]).
Proof. vm_compute; reflexivity. Qed.

(** S4: three pages held exclusively in a pool of three; a fourth page
    cannot be fixed until one of them is unfixed. *)
Example scenario_buffer_full :
  ∃ d s s',
    run (FS := mem_files) [FixPage false 101 1 true; FixPage false 102 2 true; FixPage false 103 3 true]
      (∅, BufferManager.new 1024 3) = Some (d, s) ∧
    BufferManager.fix_page (FS := mem_files) false 104 4 false d s
      = (Thrown buffer_full_error, d, s) ∧
    BufferManager.unfix_page 102 false s = Some s' ∧
    (BufferManager.fix_page (FS := mem_files) false 104 4 false d s').1.1 = Fixed 104.
Proof.
  eexists _, _, _. split_and!; vm_compute; reflexivity.
Qed.

(** ** The claims on concrete pools *)

(** C1: the search for a replacement candidate looks at the FIFO queue
    only.  In a pool of one page whose only frame has been reused and
    unfixed, the frame sits in the LRU queue with a free latch, and
    [fix_page] for another page throws [buffer_full_error]. *)
Example lru_frame_is_not_replaced :
  ∃ d s f,
    run (FS := mem_files)
      [FixPage false 10 1 false; UnfixPage 10 false; FixPage false 11 1 false; UnfixPage 10 false]
      (∅, BufferManager.new 1024 1) = Some (d, s) ∧
    BufferManager.fifo s = [] ∧ BufferManager.lru s = [10] ∧
    BufferManager.heap s !! 10 = Some f ∧
    BufferFrame.lockWrite false false f
      = Some (true, BufferFrame.set_frameLock WrLocked f) ∧
    BufferManager.fix_page (FS := mem_files) false 11 2 false d s
      = (Thrown buffer_full_error, d, s).
Proof.
  eexists _, _, _. split_and!; [vm_compute; reflexivity|done|done|..];
    vm_compute; reflexivity.
Qed.

(** C6 as stated fails: on a store whose reads fail, the frame made by
    [fix_page] for page 1 is still in the frame table and in the FIFO queue
    after the read error has left [get_data]. *)
Example read_failure_frame_stays :
  ∃ d1 s1 b d2 s2,
    BufferManager.fix_page (FS := unreadable_files) false 10 1 false ∅
      (BufferManager.new 1024 1) = (Fixed 10, d1, s1) ∧
    frame_get_data (FS := unreadable_files) 10 d1 s1
      = Some (Throws io_error, b, d2, s2) ∧
    ¬ (BufferManager.bufferFrameMap s2 !! 1 = None ∧ 10 ∉ BufferManager.fifo s2).
Proof.
  eexists _, _, _, _, _. split_and!; [vm_compute; reflexivity..|].
  intros [H _]. vm_compute in H. discriminate.
Qed.

(** C9 as stated fails for the offset: it is computed in [size_t]
    arithmetic and wraps around.  In a pool with pages of 2^17 bytes the
    frame that [fix_page] makes for page id 2^47 has page index 2^47 and
    keeps the offset 0, while the product of the page index and the page
    size is 2^64. *)
Example offset_wraps_around :
  ∃ d s f,
    run (FS := mem_files) [FixPage false 10 (2 ^ 47) true]
      (∅, BufferManager.new (2 ^ 17) 1) = Some (d, s) ∧
    BufferManager.heap s !! 10 = Some f ∧
    BufferFrame.page_id f = 2 ^ 47 ∧
    BufferFrame.page_size f = 2 ^ 17 ∧
    get_segment_page_id (BufferFrame.page_id f) = 2 ^ 47 ∧
    BufferFrame.pageOffsetInFile f = 0 ∧
    BufferFrame.pageOffsetInFile f
      ≠ get_segment_page_id (BufferFrame.page_id f) * BufferFrame.page_size f.
Proof.
  eexists _, _, _. split_and!; [vm_compute; reflexivity..|].
  vm_compute. discriminate.
Qed.

(** *** Instances of the theorems *)

Lemma page_id_layout_witness :
  ∃ d s f,
    run (FS := mem_files) [FixPage false 10 (2 ^ 48 + 3) true; GetData 10]
      (∅, BufferManager.new 1024 4) = Some (d, s) ∧
    BufferManager.heap s !! 10 = Some f ∧
    BufferFrame.pageOffsetInFile f
      = wrap64 (get_segment_page_id (BufferFrame.page_id f) * 1024) ∧
    wrap64 (get_segment_page_id (BufferFrame.page_id f) * 1024) = 3072.
Proof.
  eexists _, _, _. split; [vm_compute; reflexivity|].
  split; [vm_compute; reflexivity|].
  split; [|vm_compute; reflexivity].
  refine (proj1 (proj2 (page_id_layout (FS := mem_files) 1024 4
    [FixPage false 10 (2 ^ 48 + 3) true; GetData 10] ∅ _ _ _) 10 _ _));
    vm_compute; reflexivity.
Defined.

Lemma flush_writes_back_once_witness :
  let f := BufferFrame.mk 1 4 0 4 FrameState.dirty
             (Some [Byte.x01; Byte.x02; Byte.x03; Byte.x04]) WrLocked in
  let d : @Disk mem_files := {[ "0" := [Byte.xff] ]} in
  let d2 : @Disk mem_files :=
    {[ "0" := [Byte.xff; Byte.x00; Byte.x00; Byte.x00;
               Byte.x01; Byte.x02; Byte.x03; Byte.x04] ]} in
  BufferFrame.state f = FrameState.dirty ∧
  BufferFrame.open_or_create (FS := mem_files) "0" WRITE d = (true, d) ∧
  write_block (FileStore := mem_files) "0" (BufferFrame.data f) 4 4 d = Some d2 ∧
  BufferFrame.flush (FS := mem_files) f d
    = (Done, BufferFrame.set_state FrameState.clean f, d2).
Proof.
  intros f d d2. split_and!; [reflexivity|vm_compute; reflexivity..|].
  apply (proj1 (flush_writes_back_once (FS := mem_files) f d) d d2);
    [reflexivity|vm_compute; reflexivity..].
Defined.


Lemma buffer_full_leaves_state_witness :
  ∃ d s d' s',
    run (FS := mem_files) [FixPage false 10 1 true] (∅, BufferManager.new 1024 1)
      = Some (d, s) ∧
    BufferManager.fix_page (FS := mem_files) false 11 2 false d s
      = (Thrown buffer_full_error, d', s') ∧
    d' = d ∧ s' = s.
Proof.
  eexists _, _, _, _. split; [vm_compute; reflexivity|].
  split; [vm_compute; reflexivity|].
  apply (buffer_full_leaves_state (FS := mem_files) false 11 2 false).
  vm_compute; reflexivity.
Defined.

Lemma zero_capacity_always_full_witness :
  ∃ d s,
    run (FS := mem_files) [FixPage false 10 1 true; FixPage false 10 2 false]
      (∅, BufferManager.new 1024 0) = Some (d, s) ∧
    BufferManager.fix_page (FS := mem_files) false 11 3 true d s
      = (Thrown buffer_full_error, d, s).
Proof.
  eexists _, _. split; [vm_compute; reflexivity|].
  refine (proj2 (proj2 (proj2 (proj2 (zero_capacity_always_full (FS := mem_files) 1024
    [FixPage false 10 1 true; FixPage false 10 2 false] ∅ _ _ _)))) false 11 3 true).
  vm_compute; reflexivity.
Defined.

Lemma table_size_bounded_witness :
  ∃ d s,
    run (FS := mem_files)
      [FixPage false 10 1 true; GetData 10; UnfixPage 10 true;
       FixPage false 11 2 false; UnfixPage 11 false; FixPage false 10 3 false]
      (∅, BufferManager.new 4 2) = Some (d, s) ∧
    N.of_nat (size (BufferManager.bufferFrameMap s)) ≤ 2.
Proof.
  eexists _, _. split; [vm_compute; reflexivity|].
  refine (proj1 (table_size_bounded (FS := mem_files) 4 2
    [FixPage false 10 1 true; GetData 10; UnfixPage 10 true;
     FixPage false 11 2 false; UnfixPage 11 false; FixPage false 10 3 false] ∅ _ _ _)).
  vm_compute; reflexivity.
Defined.

Lemma frames_in_exactly_one_queue_witness :
  ∃ d s,
    run (FS := mem_files)
      [FixPage false 10 1 true; UnfixPage 10 false; FixPage false 11 2 false;
       FixPage false 12 1 false; UnfixPage 10 false]
      (∅, BufferManager.new 4 2) = Some (d, s) ∧
    NoDup (BufferManager.fifo s ++ BufferManager.lru s).
Proof.
  eexists _, _. split; [vm_compute; reflexivity|].
  refine (proj1 (proj2 (frames_in_exactly_one_queue (FS := mem_files) 4 2
    [FixPage false 10 1 true; UnfixPage 10 false; FixPage false 11 2 false;
     FixPage false 12 1 false; UnfixPage 10 false] ∅ _ _ _))).
  vm_compute; reflexivity.
Defined.

Lemma reuse_moves_to_lru_tail_witness :
  ∃ d s d' s',
    run (FS := mem_files)
      [FixPage false 10 1 true; UnfixPage 10 false; FixPage false 11 2 false; UnfixPage 11 false]
      (∅, BufferManager.new 4 2) = Some (d, s) ∧
    BufferManager.bufferFrameMap s !! 1 = Some 10 ∧
    BufferManager.fix_page (FS := mem_files) false 12 1 false d s = (Fixed 10, d', s') ∧
    Fixed 10 ≠ Deadlocked ∧
    BufferManager.lru s' = BufferManager.erase_remove 10 (BufferManager.lru s) ++ [10].
Proof.
  eexists _, _, _, _. split; [vm_compute; reflexivity|].
  split; [vm_compute; reflexivity|].
  split; [vm_compute; reflexivity|].
  split; [discriminate|].
  refine (proj1 (proj2 (proj2 (proj1 (reuse_moves_to_lru_tail (FS := mem_files) 4 2
    [FixPage false 10 1 true; UnfixPage 10 false; FixPage false 11 2 false; UnfixPage 11 false]
    ∅ _ _ _) false 12 1 false 10 (Fixed 10) _ _ _ _ _)))).
  - vm_compute; reflexivity.
  - vm_compute; reflexivity.
  - vm_compute; reflexivity.
  - discriminate.
Defined.

Lemma read_failure_keeps_frame_witness :
  ∃ d s d1 s1 b d2 s2,
    run (FS := unreadable_files) [FixPage false 10 1 true; UnfixPage 10 false]
      (∅, BufferManager.new 4 2) = Some (d, s) ∧
    BufferManager.bufferFrameMap s !! 2 = None ∧
    BufferManager.fix_page (FS := unreadable_files) false 11 2 false d s
      = (Fixed 11, d1, s1) ∧
    frame_get_data (FS := unreadable_files) 11 d1 s1
      = Some (Throws io_error, b, d2, s2) ∧
    BufferManager.fifo s2 = BufferManager.fifo s1.
Proof.
  eexists _, _, _, _, _, _, _. split; [vm_compute; reflexivity|].
  split; [vm_compute; reflexivity|].
  split; [vm_compute; reflexivity|].
  split; [vm_compute; reflexivity|].
  refine (proj1 (proj2 (proj2 (proj2 (proj2 (proj2 (proj2
    (read_failure_keeps_frame (FS := unreadable_files) 4 2
       [FixPage false 10 1 true; UnfixPage 10 false] ∅ _ _ _ false 11 2 false _ _ _ _)))
    io_error _ _ _ _))))).
  - vm_compute; reflexivity.
  - vm_compute; reflexivity.
  - vm_compute; reflexivity.
  - vm_compute; reflexivity.
Defined.

(** * Further properties of the code *)

Lemma to_string_inj n m : to_string n = to_string m → n = m.
Proof.
  unfold to_string. intros H. apply DecimalN.Unsigned.to_uint_inj.
  assert (Hnn : ∀ k, N.to_uint k ≠ Decimal.Nil).
  { intros [|p]; [done|]. simpl. apply DecimalPos.Unsigned.to_uint_nonnil. }
  pose proof (NilZero.usu _ (Hnn n)) as H1.
  pose proof (NilZero.usu _ (Hnn m)) as H2.
  rewrite H in H1. congruence.
Qed.

(** X10: the page ids of a pool with a page size between 1 and 2^16 are
    stored apart: two 64-bit page ids whose frames name the same segment
    file and the same offset are equal, and the segment id and the page
    index give the page id back. *)
Theorem distinct_pages_distinct_places (pid1 pid2 ps : N) :
  pid1 < 2 ^ 64 → pid2 < 2 ^ 64 → 0 < ps → ps ≤ 2 ^ 16 →
  let f1 := BufferFrame.new pid1 ps (get_segment_id pid1) in
  let f2 := BufferFrame.new pid2 ps (get_segment_id pid2) in
  pid1 = get_segment_id pid1 * 2 ^ 48 + get_segment_page_id pid1 ∧
  (to_string (BufferFrame.segment_id f1) = to_string (BufferFrame.segment_id f2) →
   BufferFrame.pageOffsetInFile f1 = BufferFrame.pageOffsetInFile f2 →
   pid1 = pid2).
Proof.
  intros H1 H2 Hps0 Hps f1 f2.
  assert (Hsplit : ∀ pid, pid < 2 ^ 64 →
            pid = get_segment_id pid * 2 ^ 48 + get_segment_page_id pid).
  { intros pid Hpid. destruct (get_segment_id_high_bits pid Hpid) as (_ & -> & _).
    destruct (get_segment_page_id_low_bits pid) as [-> _].
    rewrite N.mul_comm. apply N.div_mod. done. }
  split; [by apply Hsplit|].
  simpl. intros Hseg%to_string_inj Hoff.
  change (N.land pid1 (N.shiftl 1 48 - 1)) with (get_segment_page_id pid1) in Hoff.
  change (N.land pid2 (N.shiftl 1 48 - 1)) with (get_segment_page_id pid2) in Hoff.
  rewrite !offset_exact in Hoff by done.
  apply N.mul_cancel_r in Hoff; [|lia].
  rewrite (Hsplit pid1 H1), (Hsplit pid2 H2). congruence.
Qed.

Lemma distinct_pages_distinct_places_witness :
  3 < 2 ^ 64 ∧ 2 ^ 48 + 3 < 2 ^ 64 ∧ 0 < 1024 ∧ 1024 ≤ 2 ^ 16 ∧
  (to_string (get_segment_id 3) = to_string (get_segment_id (2 ^ 48 + 3)) →
   wrap64 (get_segment_page_id 3 * 1024) = wrap64 (get_segment_page_id (2 ^ 48 + 3) * 1024) →
   3 = 2 ^ 48 + 3).
Proof.
  split_and!; [done..|].
  apply (distinct_pages_distinct_places 3 (2 ^ 48 + 3) 1024); done.
Defined.

Section Further.
Context `{FS : FileStore}.

(** X8: [get_data] reads the page at most once.  On a frame that is not
    empty it returns the buffer and touches neither the frame nor the
    files.  On an empty frame it opens the segment file, creating it if
    needed, reads the page at the frame's offset into fresh memory and
    returns that buffer, leaving the frame clean; a second call then
    returns the same buffer and changes nothing.  When the read fails the
    frame stays empty, so that the next call reads again. *)
Theorem get_data_reads_once f d :
  let name := to_string (BufferFrame.segment_id f) in
  let size := BufferFrame.page_size f in
  (BufferFrame.state f ≠ FrameState.empty →
   BufferFrame.get_data f d = (Done, BufferFrame.data f, f, d)) ∧
  (BufferFrame.state f = FrameState.empty →
   ∀ d1 buf,
     BufferFrame.open_or_create name READ d = (true, d1) →
     read_block name (BufferFrame.pageOffsetInFile f) size (malloc size) d1 = Some buf →
     BufferFrame.get_data f d =
       (Done, Some buf,
        BufferFrame.set_state FrameState.clean (BufferFrame.set_data (Some buf) f),
        d1)) ∧
  (∀ b f' d',
     BufferFrame.get_data f d = (Done, b, f', d') →
     BufferFrame.state f' ≠ FrameState.empty ∧
     b = BufferFrame.data f' ∧
     BufferFrame.get_data f' d' = (Done, b, f', d')) ∧
  (∀ e b f' d',
     BufferFrame.get_data f d = (Throws e, b, f', d') →
     e = io_error ∧ b = None ∧
     BufferFrame.state f = FrameState.empty ∧
     BufferFrame.state f' = FrameState.empty).
Proof.
  intros name size. split_and!.
  - intros Hne. unfold BufferFrame.get_data. by rewrite decide_False.
  - intros He d1 buf Hopen Hread. unfold BufferFrame.get_data, BufferFrame.readPage.
    rewrite decide_True by done. simpl. fold name size. by rewrite Hopen, Hread.
  - intros b f' d'. unfold BufferFrame.get_data at 1. case_decide as He.
    + unfold BufferFrame.readPage.
      destruct (BufferFrame.open_or_create _ _ _) as [[] d1];
        [destruct (read_block _ _ _ _ _) as [buf|]|]; intros [= <- <- <-];
        simpl; split_and!; try done.
    + intros [= <- <- <-]. split_and!; try done.
      unfold BufferFrame.get_data. by rewrite decide_False.
  - intros e b f' d'. unfold BufferFrame.get_data. case_decide as He; [|done].
    unfold BufferFrame.readPage.
    destruct (BufferFrame.open_or_create _ _ _) as [[] d1];
      [destruct (read_block _ _ _ _ _) as [buf|]|]; intros [= <- <- <- <-]; done.
Qed.

(** The buffer that [flush] wrote is what [readPage] finds for a new
    frame of the same page id. *)
Lemma flushed_buffer_is_read_back ps f b d f' d' :
  reads_back_writes FS →
  made_for ps f →
  BufferFrame.state f = FrameState.dirty →
  BufferFrame.data f = Some b →
  length b = N.to_nat ps →
  BufferFrame.flush f d = (Done, f', d') →
  let pid := BufferFrame.page_id f in
  let g := BufferFrame.new pid ps (get_segment_id pid) in
  BufferFrame.get_data g d'
    = (Done, Some b,
       BufferFrame.set_state FrameState.clean (BufferFrame.set_data (Some b) g), d').
Proof.
  intros Hlaw (Hsz & Hseg & Hoff) Hst Hdata Hlen Hfl pid g.
  unfold BufferFrame.flush in Hfl. rewrite decide_True in Hfl by done.
  unfold BufferFrame.writePage in Hfl.
  destruct (BufferFrame.open_or_create _ WRITE d) as [[] d1]; [|done].
  destruct (write_block _ _ _ _ _) as [d2|] eqn:Hw; [|done].
  injection Hfl as <- <-.
  rewrite Hdata, Hsz, Hseg, Hoff in Hw.
  destruct (Hlaw _ _ _ _ _ _ Hw Hlen) as [Hopen Hread].
  unfold BufferFrame.get_data. rewrite decide_True by done.
  subst pid g. unfold BufferFrame.readPage, BufferFrame.open_or_create.
  cbn [BufferFrame.new BufferFrame.set_data BufferFrame.page_size
       BufferFrame.segment_id BufferFrame.pageOffsetInFile BufferFrame.page_id
       BufferFrame.state BufferFrame.data BufferFrame.frameLock].
  fold (get_segment_page_id (BufferFrame.page_id f)).
  by rewrite Hopen, Hread.
Qed.

(** X9: a page written back is read back.  On a file layer that reads
    back what it wrote, when [flush] has written the buffer of a dirty
    frame, [get_data] on a new frame for the same page id materialises
    exactly that buffer, from the same file and offset. *)
Theorem written_page_is_read_back ps f b d f' d' :
  reads_back_writes FS →
  made_for ps f →
  BufferFrame.state f = FrameState.dirty →
  BufferFrame.data f = Some b →
  length b = N.to_nat ps →
  BufferFrame.flush f d = (Done, f', d') →
  let pid := BufferFrame.page_id f in
  let g := BufferFrame.new pid ps (get_segment_id pid) in
  f' = BufferFrame.set_state FrameState.clean f ∧
  BufferFrame.get_data g d'
    = (Done, Some b,
       BufferFrame.set_state FrameState.clean (BufferFrame.set_data (Some b) g), d').
Proof.
  intros Hlaw Hmade Hst Hdata Hlen Hfl pid g. split.
  - revert Hfl. unfold BufferFrame.flush, BufferFrame.writePage.
    rewrite decide_True by done.
    destruct (BufferFrame.open_or_create _ _ _) as [[] d1];
      [destruct (write_block _ _ _ _ _)|]; by intros [= <- <-].
  - by eapply flushed_buffer_is_read_back.
Qed.

End Further.

Lemma mem_read_write content b offset size :
  length b = N.to_nat size →
  mem_read (mem_write content b offset size) offset size
    (replicate (N.to_nat size) Byte.x00) = b.
Proof.
  intros Hlen. unfold mem_read, mem_write.
  rewrite firstn_all2 with (l := b) by lia.
  set (pre := take (N.to_nat offset) _).
  assert (Hpre : length pre = N.to_nat offset).
  { unfold pre. rewrite length_take, length_app, length_replicate. lia. }
  rewrite drop_app_length' by done.
  rewrite take_app_length' by lia.
  rewrite drop_ge; [by rewrite app_nil_r|].
  rewrite length_replicate. lia.
Qed.

Lemma mem_files_reads_back : reads_back_writes mem_files.
Proof.
  intros name b offset size d1 d2. simpl in *. intros Hw Hlen.
  apply bind_Some in Hw as (content & Hname & [= <-]).
  rewrite lookup_insert_eq. simpl. split; [done|].
  f_equal. by apply mem_read_write.
Qed.

Lemma get_data_reads_once_witness :
  let f := BufferFrame.new 3 4 0 in
  ∃ d1 buf,
    BufferFrame.state f = FrameState.empty ∧
    BufferFrame.open_or_create (FS := mem_files) "0" READ ∅ = (true, d1) ∧
    read_block (FileStore := mem_files) "0" 12 4
      (malloc (FileStore := mem_files) 4) d1 = Some buf ∧
    BufferFrame.get_data (FS := mem_files) f ∅
      = (Done, Some buf,
         BufferFrame.set_state FrameState.clean (BufferFrame.set_data (Some buf) f),
         d1).
Proof.
  intros f. eexists _, _.
  split; [reflexivity|]. split; [vm_compute; reflexivity|].
  split; [vm_compute; reflexivity|].
  apply (proj1 (proj2 (get_data_reads_once (FS := mem_files) f ∅)));
    [reflexivity|vm_compute; reflexivity..].
Defined.

Lemma written_page_is_read_back_witness :
  let f := BufferFrame.mk 1 4 0 4 FrameState.dirty
             (Some [Byte.x01; Byte.x02; Byte.x03; Byte.x04]) WrLocked in
  ∃ f' d',
    reads_back_writes mem_files ∧ made_for 4 f ∧
    BufferFrame.flush (FS := mem_files) f ∅ = (Done, f', d') ∧
    (BufferFrame.get_data (FS := mem_files) (BufferFrame.new 1 4 0) d').1.1.2
      = Some [Byte.x01; Byte.x02; Byte.x03; Byte.x04].
Proof.
  intros f. eexists _, _.
  split; [exact mem_files_reads_back|].
  split; [by vm_compute|].
  split; [vm_compute; reflexivity|].
  edestruct (written_page_is_read_back (FS := mem_files) 4 f
               [Byte.x01; Byte.x02; Byte.x03; Byte.x04] ∅) as [_ H];
    [exact mem_files_reads_back|by vm_compute|reflexivity|reflexivity|reflexivity
    |vm_compute; reflexivity|].
  exact (f_equal (λ x, x.1.1.2) H).
Defined.

Section FurtherPool.
Context `{FS : FileStore}.

(** The branches of [fix_page] on a well-formed pool, as equations. *)
Ltac fix_page_cases Hwf s pid :=
  destruct (BufferManager.mtx s) eqn:Hm;
  [ rewrite fix_page_deadlocked by done
  | destruct (BufferManager.bufferFrameMap s !! pid) as [p|] eqn:Hpid;
    [ destruct (wf_table _ Hwf _ _ Hpid) as (f & Hp & Hfid);
      rewrite (fix_page_hit _ _ _ _ _ _ p f) by done
    | destruct (decide (N.of_nat (size (BufferManager.bufferFrameMap s))
                        < BufferManager.page_count s)) as [Hlt|Hge];
      [ rewrite fix_page_room by done
      | destruct (scan_cases (BufferManager.fifo s) (BufferManager.heap s))
          as [Hall|(q1 & v & q2 & fv & Hfifo & Hq1 & Hv & Hu)];
        [ by (intros ?; apply wf_fifo_live)
        | rewrite fix_page_full by done
        | rewrite (fix_page_evict _ _ _ _ _ _ q1 q2 v fv) by done ] ] ] ].

Lemma trylock_conflicts (excl : bool) l :
  (if excl then trywrlock l else tryrdlock l) = None ↔ conflicts excl l.
Proof. destruct excl, l; simpl; split; try done. Qed.


(** X3: [fix_page] throws [buffer_full_error] exactly when the page is not
    in the buffer, the table holds [page_count] frames and every frame of
    the FIFO queue is latched; the frames of the LRU queue play no part. *)
Theorem buffer_full_iff ps pc cs d0 d s owned fresh pid excl :
  run cs (d0, BufferManager.new ps pc) = Some (d, s) →
  BufferManager.mtx s = false →
  (BufferManager.fix_page owned fresh pid excl d s).1.1 = Thrown buffer_full_error ↔
  BufferManager.bufferFrameMap s !! pid = None ∧
  N.of_nat (size (BufferManager.bufferFrameMap s)) = pc ∧
  ∀ r, r ∈ BufferManager.fifo s →
    ∃ g, BufferManager.heap s !! r = Some g ∧ BufferFrame.frameLock g ≠ Unlocked.
Proof.
  intros (Hwf & _ & Hpc)%reachable_wf Hmtx.
  pose proof (wf_size _ Hwf) as Hsz. rewrite Hpc in Hsz.
  split.
  - destruct (BufferManager.fix_page owned fresh pid excl d s) as [[o d'] s'] eqn:Hfix.
    simpl. intros ->. revert Hfix. fix_page_cases Hwf s pid; try done.
    + intros [= ?]. destruct (if excl then _ else _); [done|]. by destruct (refuses _ _).
    + unfold BufferManager.install, BufferManager.map_insert. simpl.
      intros H. repeat case_match; simplify_eq.
    + intros _. split_and!; [done|lia|done].
    + destruct (BufferFrame.flush _ d) as [[[|e] g] d1] eqn:Hfl.
      * unfold BufferManager.install, BufferManager.map_insert. simpl.
        intros H. repeat case_match; simplify_eq.
      * apply flush_throws in Hfl as (-> & _). done.
  - intros (Hpid & Hfull & Hall). rewrite fix_page_full; [done..| |done]. lia.
Qed.

Lemma refuses_true owned l :
  refuses owned l = true ↔ owned = true ∧ l = WrLocked.
Proof. destruct owned, l; simpl; split; try done; by intros [? ?]. Qed.

Lemma trylock_locked (excl : bool) l l' :
  (if excl then trywrlock l else tryrdlock l) = Some l' →
  l' ≠ Unlocked ∧ if excl then l = Unlocked ∧ l' = WrLocked else ∃ n, l' = RdLocked n.
Proof. destruct excl, l; simpl; intros [= <-]; split; eauto. Qed.

(** X2: the frame that [fix_page] returns is the table's frame for the
    requested page and holds that page id, and its latch is held.  For a
    page that was not in the buffer it is a new empty frame at the address
    [new] returned, latched as requested.  For a page that was in the
    buffer, either the try-lock on the latch as it was succeeded and only
    the latch changed, or the caller itself held the write latch: the
    blocking call returned an error, which [fix_page] ignores, and the
    frame is returned as it was.  So a caller that does not hold the
    write latch already gets the frame latched as requested. *)
Theorem fixed_frame_is_latched ps pc cs d0 d s owned fresh pid excl r d' s' :
  run cs (d0, BufferManager.new ps pc) = Some (d, s) →
  BufferManager.fix_page owned fresh pid excl d s = (Fixed r, d', s') →
  BufferManager.mtx s' = false ∧
  BufferManager.bufferFrameMap s' !! pid = Some r ∧
  ∃ f', BufferManager.heap s' !! r = Some f' ∧
        BufferFrame.page_id f' = pid ∧
        BufferFrame.frameLock f' ≠ Unlocked ∧
        (BufferManager.bufferFrameMap s !! pid = None →
           r = fresh ∧
           f' = BufferFrame.set_frameLock (if excl then WrLocked else RdLocked 1)
                  (BufferFrame.new pid ps (get_segment_id pid))) ∧
        (∀ f, BufferManager.bufferFrameMap s !! pid = Some r →
              BufferManager.heap s !! r = Some f →
              match (if excl then trywrlock (BufferFrame.frameLock f)
                     else tryrdlock (BufferFrame.frameLock f)) with
              | Some l => f' = BufferFrame.set_frameLock l f
              | None => owned = true ∧ BufferFrame.frameLock f = WrLocked ∧ f' = f
              end) ∧
        (owned = false →
           if excl then BufferFrame.frameLock f' = WrLocked
           else ∃ n, BufferFrame.frameLock f' = RdLocked n).
Proof.
  intros (Hwf & Hps & _)%reachable_wf.
  assert (Hnew : ∀ (s0 : BufferManager.t) d1,
    BufferManager.page_size s0 = ps →
    BufferManager.bufferFrameMap s0 !! pid = None →
    BufferManager.bufferFrameMap s !! pid = None →
    BufferManager.install fresh pid excl d1 s0 = (Fixed r, d', s') →
    BufferManager.mtx s' = false ∧
    BufferManager.bufferFrameMap s' !! pid = Some r ∧
    ∃ f', BufferManager.heap s' !! r = Some f' ∧
          BufferFrame.page_id f' = pid ∧
          BufferFrame.frameLock f' ≠ Unlocked ∧
          (BufferManager.bufferFrameMap s !! pid = None →
             r = fresh ∧
             f' = BufferFrame.set_frameLock (if excl then WrLocked else RdLocked 1)
                    (BufferFrame.new pid ps (get_segment_id pid))) ∧
          (∀ f, BufferManager.bufferFrameMap s !! pid = Some r →
                BufferManager.heap s !! r = Some f →
                match (if excl then trywrlock (BufferFrame.frameLock f)
                       else tryrdlock (BufferFrame.frameLock f)) with
                | Some l => f' = BufferFrame.set_frameLock l f
                | None => owned = true ∧ BufferFrame.frameLock f = WrLocked ∧ f' = f
                end) ∧
          (owned = false →
             if excl then BufferFrame.frameLock f' = WrLocked
             else ∃ n, BufferFrame.frameLock f' = RdLocked n)).
  { intros s0 d1 Hps0 Hnone Hnot.
    destruct (BufferManager.heap s0 !! fresh) as [g|] eqn:Hfresh.
    { by rewrite install_stuck by eauto. }
    destruct (install_fresh fresh pid excl d1 s0) as (l & -> & ->); [done..|].
    intros [= <- <- <-]. simpl. rewrite !lookup_insert_eq, Hps0.
    split_and!; [done..|]. eexists. split_and!; [done|done|..].
    - by destruct excl.
    - done.
    - intros f Hin. congruence.
    - intros _. destruct excl; simpl; eauto. }
  fix_page_cases Hwf s pid; try done.
  - destruct (if excl then trywrlock _ else _) as [l|] eqn:Hl.
    + intros [= <- <- <-]. simpl. rewrite lookup_insert_eq.
      pose proof (trylock_locked _ _ _ Hl) as [Hnu Hmode].
      split_and!; [done..|]. eexists. split_and!; [done|done|done|done|..].
      * intros f0 _ ?. simplify_eq. by rewrite Hl.
      * intros _. simpl. destruct excl; [by destruct Hmode|done].
    + destruct (refuses owned (BufferFrame.frameLock f)) eqn:Hrf; [|done].
      apply refuses_true in Hrf as [-> Hw].
      intros [= <- <- <-]. simpl.
      split_and!; [done..|]. exists f. split_and!; [done|done|by rewrite Hw|done|..].
      * intros f0 _ ?. simplify_eq. by rewrite Hl.
      * done.
  - by apply Hnew.
  - destruct (BufferFrame.flush _ d) as [[[|e] g] d1] eqn:Hfl; [|done].
    apply Hnew; [done| |done]. simpl. apply lookup_delete_None. by right.
Qed.

(** X13: when [fix_page] has the mutex, its caller is left waiting for a
    latch exactly when the page is in the buffer, its latch conflicts with
    the request (any holder for an exclusive fix, a writer for a shared
    one) and the caller is not itself the writer.  The frame has then
    already been moved to the end of the LRU queue and nothing else has
    changed.  When the wait ends, the latch is taken as the try-lock
    would take it, and only the latch changes. *)
Theorem fix_page_waits_on_conflict ps pc cs d0 d s owned fresh pid excl r :
  run cs (d0, BufferManager.new ps pc) = Some (d, s) →
  BufferManager.mtx s = false →
  ((BufferManager.fix_page owned fresh pid excl d s).1.1 = Suspended r ↔
   BufferManager.bufferFrameMap s !! pid = Some r ∧
   ∃ f, BufferManager.heap s !! r = Some f ∧
        conflicts excl (BufferFrame.frameLock f) ∧
        ¬ (owned = true ∧ BufferFrame.frameLock f = WrLocked)) ∧
  (∀ d' s',
     BufferManager.fix_page owned fresh pid excl d s = (Suspended r, d', s') →
     d' = d ∧
     s' = BufferManager.set_fifo (BufferManager.erase_remove r (BufferManager.fifo s))
            (BufferManager.set_lru
               (BufferManager.erase_remove r (BufferManager.lru s) ++ [r]) s)) ∧
  (∀ s1 s2,
     resume r excl s1 = Some s2 →
     ∃ f1 l, BufferManager.heap s1 !! r = Some f1 ∧
             (if excl then trywrlock (BufferFrame.frameLock f1)
              else tryrdlock (BufferFrame.frameLock f1)) = Some l ∧
             s2 = BufferManager.set_heap
                    (<[r := BufferFrame.set_frameLock l f1]> (BufferManager.heap s1)) s1).
Proof.
  intros (Hwf & _)%reachable_wf Hmtx.
  assert (Hsusp : ∀ o d' s',
    BufferManager.fix_page owned fresh pid excl d s = (o, d', s') →
    o = Suspended r →
    BufferManager.bufferFrameMap s !! pid = Some r ∧
    (∃ f, BufferManager.heap s !! r = Some f ∧
          conflicts excl (BufferFrame.frameLock f) ∧
          ¬ (owned = true ∧ BufferFrame.frameLock f = WrLocked)) ∧
    d' = d ∧
    s' = BufferManager.set_fifo (BufferManager.erase_remove r (BufferManager.fifo s))
           (BufferManager.set_lru
              (BufferManager.erase_remove r (BufferManager.lru s) ++ [r]) s)).
  { intros o d' s' Hfix ->. revert Hfix. fix_page_cases Hwf s pid; try done.
    - destruct (if excl then _ else _) as [l|] eqn:Hl; [done|].
      destruct (refuses owned (BufferFrame.frameLock f)) eqn:Hrf; [done|].
      intros [= <- <- <-]. split_and!; [done| |done|].
      + exists f. split_and!; [done|by apply trylock_conflicts|].
        intros Hr%refuses_true. congruence.
      + destruct s; simpl in *. by subst.
    - unfold BufferManager.install, BufferManager.map_insert. simpl.
      unfold BufferFrame.lockWrite, BufferFrame.lockRead. simpl.
      intros H. repeat case_match; simplify_eq.
    - destruct (BufferFrame.flush _ d) as [[[|e] g] d1] eqn:Hfl; [|done].
      unfold BufferManager.install, BufferManager.map_insert. simpl.
      unfold BufferFrame.lockWrite, BufferFrame.lockRead. simpl.
      intros H. repeat case_match; simplify_eq. }
  split_and!.
  - split.
    + pose proof (Hsusp (BufferManager.fix_page owned fresh pid excl d s).1.1
                    (BufferManager.fix_page owned fresh pid excl d s).1.2
                    (BufferManager.fix_page owned fresh pid excl d s).2) as H.
      intros Hs. destruct H as (? & ? & _); [|done..].
      by destruct (BufferManager.fix_page owned fresh pid excl d s) as [[??]?].
    + intros (Hpid & f & Hf & Hc & Hno).
      rewrite (fix_page_hit _ _ _ _ _ _ r f) by done. simpl.
      apply trylock_conflicts in Hc. rewrite Hc.
      destruct (refuses owned (BufferFrame.frameLock f)) eqn:Hrf; [|done].
      by apply refuses_true in Hrf.
  - intros d' s' Hfix. by destruct (Hsusp _ _ _ Hfix eq_refl) as (_ & _ & ? & ?).
  - intros s1 s2. unfold resume.
    destruct (BufferManager.heap s1 !! r) as [f1|]; [|done].
    rewrite lock_unowned.
    destruct (if excl then _ else _) as [l|] eqn:Hl; [|done].
    intros [= <-]. by exists f1, l.
Qed.

(** X4: replacement in a full pool.  The victim is the first frame of the
    FIFO queue, from the head, whose latch is free.  It is flushed,
    its table entry and its place in the FIFO queue are removed, the order
    of the other frames is kept, the LRU queue is untouched, and the frame
    of the requested page is entered at the end of the FIFO queue, empty
    and latched as requested. *)
Theorem replacement_takes_first_free_fifo_frame
    ps pc cs d0 d s owned fresh pid (excl : bool) q1 v q2 fv g d1 :
  run cs (d0, BufferManager.new ps pc) = Some (d, s) →
  BufferManager.mtx s = false →
  BufferManager.bufferFrameMap s !! pid = None →
  N.of_nat (size (BufferManager.bufferFrameMap s)) = pc →
  BufferManager.fifo s = q1 ++ v :: q2 →
  (∀ r, r ∈ q1 →
     ∃ h, BufferManager.heap s !! r = Some h ∧ BufferFrame.frameLock h ≠ Unlocked) →
  BufferManager.heap s !! v = Some fv →
  BufferFrame.frameLock fv = Unlocked →
  BufferFrame.flush (BufferFrame.set_frameLock WrLocked fv) d = (Done, g, d1) →
  fresh = v ∨ BufferManager.heap s !! fresh = None →
  BufferManager.fix_page owned fresh pid excl d s =
    (Fixed fresh, d1,
     BufferManager.mk ps pc false
       (<[pid := fresh]> (delete (BufferFrame.page_id fv) (BufferManager.bufferFrameMap s)))
       ((q1 ++ q2) ++ [fresh])
       (BufferManager.lru s)
       (<[fresh := BufferFrame.set_frameLock (if excl then WrLocked else RdLocked 1)
            (BufferFrame.new pid ps (get_segment_id pid))]>
          (delete v (BufferManager.heap s)))) ∧
  (BufferFrame.state fv ≠ FrameState.dirty → d1 = d).
Proof.
  intros (Hwf & Hps & Hpc)%reachable_wf Hmtx Hpid Hfull Hfifo Hq1 Hv Hu Hfl Hfresh.
  split.
  - rewrite (fix_page_evict _ _ _ _ _ _ q1 q2 v fv); [|done|done|lia|done..].
    rewrite Hfl.
    set (s0 := BufferManager.mk _ _ _ _ _ _ _).
    destruct (install_fresh fresh pid excl d1 s0) as (l & -> & ->).
    + simpl. apply lookup_delete_None. destruct Hfresh; [by left|by right].
    + simpl. apply lookup_delete_None. by right.
    + simpl. rewrite Hps, Hpc. do 3 f_equal.
      rewrite Hfifo. apply erase_remove_middle.
      pose proof (wf_nodup _ Hwf) as Hn. rewrite Hfifo in Hn.
      by apply NoDup_app in Hn as [? _].
  - intros Hnd. rewrite flush_not_dirty in Hfl by done. by injection Hfl.
Qed.

(** X5: a latched frame survives every [fix_page].  Whatever the call
    does, a frame whose latch is held stays in the free store at its
    address and stays the table's frame for its page, with the same state
    and buffer; unless it is the frame of the requested page, not even its
    latch changes. *)
Theorem latched_frames_survive ps pc cs d0 d s owned fresh pid excl o d' s' r h :
  run cs (d0, BufferManager.new ps pc) = Some (d, s) →
  BufferManager.fix_page owned fresh pid excl d s = (o, d', s') →
  BufferManager.heap s !! r = Some h →
  BufferFrame.frameLock h ≠ Unlocked →
  BufferManager.bufferFrameMap s' !! BufferFrame.page_id h = Some r ∧
  ∃ h', BufferManager.heap s' !! r = Some h' ∧
        same_identity h h' ∧
        BufferFrame.state h' = BufferFrame.state h ∧
        BufferFrame.data h' = BufferFrame.data h ∧
        (BufferFrame.page_id h ≠ pid → h' = h).
Proof.
  intros (Hwf & _)%reachable_wf Hfix Hr Hl.
  pose proof (wf_heap _ Hwf _ _ Hr) as Hmr.
  assert (Hinst : ∀ (s0 : BufferManager.t) d2,
    BufferManager.bufferFrameMap s0 !! pid = None →
    BufferManager.bufferFrameMap s0 !! BufferFrame.page_id h = Some r →
    BufferManager.heap s0 !! r = Some h →
    BufferManager.install fresh pid excl d2 s0 = (o, d', s') →
    BufferManager.bufferFrameMap s' !! BufferFrame.page_id h = Some r ∧
    ∃ h', BufferManager.heap s' !! r = Some h' ∧ same_identity h h' ∧
          BufferFrame.state h' = BufferFrame.state h ∧
          BufferFrame.data h' = BufferFrame.data h ∧
          (BufferFrame.page_id h ≠ pid → h' = h)).
  { intros s0 d2 Hnone Hm0 Hr0.
    destruct (BufferManager.heap s0 !! fresh) as [g|] eqn:Hfresh.
    { rewrite install_stuck by eauto. intros [= <- <- <-]. eauto 10. }
    destruct (install_fresh fresh pid excl d2 s0) as (l & -> & _); [done..|].
    intros [= <- <- <-]. simpl.
    rewrite !lookup_insert_ne by congruence. eauto 10. }
  revert Hfix. fix_page_cases Hwf s pid.
  - intros [= <- <- <-]. eauto 10.
  - intros [= <- <- <-]. simpl. split; [done|].
    destruct (decide (r = p)) as [->|Hne].
    + assert (f = h) as -> by congruence.
      destruct (if excl then _ else _) as [l|].
      * rewrite lookup_insert_eq. eexists. split_and!; [done|by repeat split|done..|].
        intros Hne. by rewrite Hfid in Hne.
      * eauto 10.
    + destruct (if excl then _ else _) as [l|].
      * rewrite lookup_insert_ne by done. eauto 10.
      * eauto 10.
  - by apply Hinst.
  - intros [= <- <- <-]. eauto 10.
  - assert (Hne : v ≠ r) by (intros ->; congruence).
    assert (Hpne : BufferFrame.page_id fv ≠ BufferFrame.page_id h).
    { intros Heq. pose proof (wf_heap _ Hwf _ _ Hv) as Hmv.
      rewrite Heq in Hmv. congruence. }
    destruct (BufferFrame.flush _ d) as [[[|e] g] d1] eqn:Hfl.
    + apply Hinst; simpl.
      * apply lookup_delete_None. by right.
      * by rewrite lookup_delete_ne.
      * by rewrite lookup_delete_ne.
    + intros [= <- <- <-]. simpl. rewrite lookup_insert_ne by done. eauto 10.
Qed.

(** X6: a failed write-back leaves the pool locked.  When [fix_page]
    leaves by an exception of the file layer, it was writing back a dirty
    frame of the FIFO queue: that frame stays in the table and the queue,
    dirty and write-locked, and [mtx] is never released, so that every
    later [fix_page] waits for it forever. *)
Theorem failed_write_back_keeps_mtx ps pc cs d0 d s owned fresh pid excl e d' s' :
  run cs (d0, BufferManager.new ps pc) = Some (d, s) →
  BufferManager.fix_page owned fresh pid excl d s = (Thrown e, d', s') →
  e ≠ buffer_full_error →
  e = io_error ∧
  BufferManager.mtx s' = true ∧
  BufferManager.bufferFrameMap s' = BufferManager.bufferFrameMap s ∧
  BufferManager.fifo s' = BufferManager.fifo s ∧
  BufferManager.lru s' = BufferManager.lru s ∧
  (∃ v fv, v ∈ BufferManager.fifo s ∧
           BufferManager.heap s !! v = Some fv ∧
           BufferFrame.state fv = FrameState.dirty ∧
           BufferFrame.frameLock fv = Unlocked ∧
           BufferManager.heap s' =
             <[v := BufferFrame.set_frameLock WrLocked fv]> (BufferManager.heap s)) ∧
  ∀ owned2 fresh2 pid2 excl2 d2,
    BufferManager.fix_page owned2 fresh2 pid2 excl2 d2 s' = (Deadlocked, d2, s').
Proof.
  intros (Hwf & _)%reachable_wf Hfix Hne.
  assert (He : e = io_error ∧ BufferManager.mtx s' = true ∧
    BufferManager.bufferFrameMap s' = BufferManager.bufferFrameMap s ∧
    BufferManager.fifo s' = BufferManager.fifo s ∧
    BufferManager.lru s' = BufferManager.lru s ∧
    ∃ v fv, v ∈ BufferManager.fifo s ∧
            BufferManager.heap s !! v = Some fv ∧
            BufferFrame.state fv = FrameState.dirty ∧
            BufferFrame.frameLock fv = Unlocked ∧
            BufferManager.heap s' =
              <[v := BufferFrame.set_frameLock WrLocked fv]> (BufferManager.heap s)).
  { revert Hfix. fix_page_cases Hwf s pid; try done.
    - intros [= ?]. destruct (if excl then _ else _); [done|]. by destruct (refuses _ _).
    - unfold BufferManager.install, BufferManager.map_insert. simpl.
      intros H. repeat case_match; simplify_eq.
    - intros [= <- <- <-]. done.
    - destruct (BufferFrame.flush _ d) as [[[|e0] g] d1] eqn:Hfl.
      + unfold BufferManager.install, BufferManager.map_insert. simpl.
        intros H. repeat case_match; simplify_eq.
      + apply flush_throws in Hfl as (-> & _ & Hst).
        intros [= <- <- <-]. simpl. split_and!; [done..|].
        exists v, fv. split_and!; [rewrite Hfifo; set_solver|done..]. }
  destruct He as (-> & Hm' & ? & ? & ? & ?). split_and!; [done..|].
  intros. by apply fix_page_deadlocked.
Qed.

Lemma rw_unlock_trylock (excl : bool) l l' :
  (if excl then trywrlock l else tryrdlock l) = Some l' → rw_unlock l' = Some l.
Proof.
  destruct excl, l as [|n|]; intros ?; simplify_eq/=; try done.
  destruct (Pos.succ n) eqn:Hs; try (by rewrite <- Hs, Pos.pred_succ).
  by destruct n.
Qed.

(** X7: fixing a page that is in the buffer and unfixing it without the
    dirty flag leaves the files and the frame table as they were; the
    queues remember the access.  When the latch was free for the request,
    every frame is as before.  Otherwise [fix_page] returned because the
    caller itself held the write latch, and the unfix releases that very
    latch: the frame ends unlatched, unchanged otherwise. *)
Theorem fix_unfix_restores_frames ps pc cs d0 d s owned fresh pid excl r f d' s' :
  run cs (d0, BufferManager.new ps pc) = Some (d, s) →
  BufferManager.bufferFrameMap s !! pid = Some r →
  BufferManager.heap s !! r = Some f →
  BufferManager.fix_page owned fresh pid excl d s = (Fixed r, d', s') →
  d' = d ∧
  ∃ s'', BufferManager.unfix_page r false s' = Some s'' ∧
         BufferManager.bufferFrameMap s'' = BufferManager.bufferFrameMap s ∧
         BufferManager.fifo s'' = BufferManager.erase_remove r (BufferManager.fifo s) ∧
         BufferManager.lru s''
           = BufferManager.erase_remove r (BufferManager.lru s) ++ [r] ∧
         (¬ conflicts excl (BufferFrame.frameLock f) →
            BufferManager.heap s'' = BufferManager.heap s) ∧
         (conflicts excl (BufferFrame.frameLock f) →
            owned = true ∧ BufferFrame.frameLock f = WrLocked ∧
            BufferManager.heap s''
              = <[r := BufferFrame.set_frameLock Unlocked f]> (BufferManager.heap s)).
Proof.
  intros (Hwf & _)%reachable_wf Hr Hf.
  destruct (BufferManager.mtx s) eqn:Hm.
  { by rewrite fix_page_deadlocked by done. }
  rewrite (fix_page_hit _ _ _ _ _ _ r f) by done.
  destruct (if excl then trywrlock _ else _) as [l|] eqn:Hl.
  - intros [= <- <-]. split; [done|].
    unfold BufferManager.unfix_page. simpl. rewrite lookup_insert_eq.
    unfold BufferFrame.unlock. simpl.
    rewrite (rw_unlock_trylock _ _ _ Hl).
    eexists. split; [done|]. simpl. split_and!; try done.
    + intros _. rewrite insert_insert_eq. apply insert_id.
      rewrite Hf. f_equal. by destruct f.
    + intros Hc%trylock_conflicts. congruence.
  - destruct (refuses owned (BufferFrame.frameLock f)) eqn:Hrf; [|done].
    apply refuses_true in Hrf as [-> Hw].
    intros [= <- <-]. split; [done|].
    unfold BufferManager.unfix_page. simpl. rewrite Hf.
    unfold BufferFrame.unlock. rewrite Hw. simpl.
    eexists. split; [done|]. simpl. split_and!; try done.
    intros Hn. destruct Hn. by destruct excl.
Qed.

Lemma page_ids_live (q : list ptr) (h : gmap ptr BufferFrame.t) :
  (∀ p, p ∈ q → is_Some (h !! p)) →
  ∃ l, BufferManager.page_ids q h = Some l ∧
       Forall2 (λ p pid, ∃ f, h !! p = Some f ∧ BufferFrame.page_id f = pid) q l.
Proof.
  intros Hq. unfold BufferManager.page_ids.
  destruct (mapM _ q) as [l|] eqn:Hl.
  - exists l. split; [done|]. apply mapM_Some_1 in Hl.
    eapply Forall2_impl; [exact Hl|]. simpl. intros p pid Hp.
    destruct (h !! p) as [f|]; simplify_eq/=. eauto.
  - assert (is_Some (mapM (λ p, BufferFrame.page_id <$> h !! p) q)) as [? ?];
      [|congruence].
    apply mapM_is_Some_2, Forall_forall. intros p Hp. simpl.
    destruct (Hq p Hp) as [f ->]. by eexists.
Qed.

(** X1: the snapshots list the pages in the buffer.  In every pool reached
    by calls from the constructor, [get_fifo_list] and [get_lru_list] meet
    no dangling frame; between them they list each page id of the frame
    table exactly once, so at most [page_count] ids. *)
Theorem snapshots_list_resident_pages ps pc cs d0 d s :
  run cs (d0, BufferManager.new ps pc) = Some (d, s) →
  ∃ fl ll,
    BufferManager.get_fifo_list s = Some fl ∧
    BufferManager.get_lru_list s = Some ll ∧
    NoDup (fl ++ ll) ∧
    (∀ pid, pid ∈ fl ++ ll ↔ is_Some (BufferManager.bufferFrameMap s !! pid)) ∧
    length (fl ++ ll) = size (BufferManager.bufferFrameMap s) ∧
    N.of_nat (length (fl ++ ll)) ≤ pc.
Proof.
  intros (Hwf & _ & Hpc)%reachable_wf.
  destruct (page_ids_live (BufferManager.fifo s) (BufferManager.heap s))
    as (fl & Hfl & Hf2).
  { intros p Hp. apply (wf_queues _ Hwf), elem_of_app. by left. }
  destruct (page_ids_live (BufferManager.lru s) (BufferManager.heap s))
    as (ll & Hll & Hl2).
  { intros p Hp. apply (wf_queues _ Hwf), elem_of_app. by right. }
  exists fl, ll.
  pose proof (Forall2_app Hf2 Hl2) as H2.
  set (q := BufferManager.fifo s ++ BufferManager.lru s) in *.
  set (k := fl ++ ll) in *.
  assert (Hmem : ∀ pid, pid ∈ k ↔ is_Some (BufferManager.bufferFrameMap s !! pid)).
  { intros pid. split.
    - intros (i & Hi)%list_elem_of_lookup_1.
      destruct (Forall2_lookup_r _ _ _ _ _ H2 Hi) as (p & Hp & f & Hf & <-).
      rewrite (wf_heap _ Hwf _ _ Hf). eauto.
    - intros [p Hp]. destruct (wf_table _ Hwf _ _ Hp) as (f & Hf & Hid).
      assert (Hin : p ∈ q) by (apply (wf_queues _ Hwf); eauto).
      apply list_elem_of_lookup_1 in Hin as (i & Hi).
      destruct (Forall2_lookup_l _ _ _ _ _ H2 Hi) as (pid' & Hk & f' & Hf' & <-).
      apply list_elem_of_lookup_2 in Hk. congruence. }
  assert (Hnd : NoDup k).
  { apply NoDup_alt. intros i j pid Hi Hj.
    destruct (Forall2_lookup_r _ _ _ _ _ H2 Hi) as (p1 & Hp1 & f1 & Hf1 & Hid1).
    destruct (Forall2_lookup_r _ _ _ _ _ H2 Hj) as (p2 & Hp2 & f2 & Hf2' & Hid2).
    apply (wf_heap _ Hwf) in Hf1, Hf2'. rewrite Hid1 in Hf1. rewrite Hid2 in Hf2'.
    assert (p1 = p2) as -> by congruence.
    pose proof (wf_nodup _ Hwf) as Hn. fold q in Hn.
    eapply NoDup_alt in Hn; [exact Hn|exact Hp1|exact Hp2]. }
  assert (Hlen : length k = size (BufferManager.bufferFrameMap s)).
  { rewrite <- length_map_to_list,
      <- (length_fmap fst (map_to_list (BufferManager.bufferFrameMap s))).
    apply Permutation_length, NoDup_Permutation;
      [done|apply NoDup_fst_map_to_list|].
    intros pid. rewrite Hmem, list_elem_of_fmap. split.
    - intros [p Hp]. exists (pid, p). split; [done|]. by apply elem_of_map_to_list.
    - intros ([pid' p] & -> & Hp%elem_of_map_to_list). simpl. eauto. }
  split_and!; try done.
  rewrite Hlen, <- Hpc. apply (wf_size _ Hwf).
Qed.

(** No call other than [unfix_page] with the dirty flag makes a frame
    dirty. *)
Lemma step_keeps_clean c d s d' s' :
  wf s →
  (∀ p f, BufferManager.heap s !! p = Some f →
          BufferFrame.state f ≠ FrameState.dirty) →
  marks_dirty c = false →
  step c (d, s) = Some (d', s') →
  ∀ p f, BufferManager.heap s' !! p = Some f →
         BufferFrame.state f ≠ FrameState.dirty.
Proof.
  intros Hwf Hclean Hc.
  assert (Hinst : ∀ fresh pid excl (s0 : BufferManager.t) d2 o,
    (∀ p f, BufferManager.heap s0 !! p = Some f →
            BufferFrame.state f ≠ FrameState.dirty) →
    BufferManager.bufferFrameMap s0 !! pid = None →
    BufferManager.install fresh pid excl d2 s0 = (o, d', s') →
    ∀ p f, BufferManager.heap s' !! p = Some f →
           BufferFrame.state f ≠ FrameState.dirty).
  { intros fresh pid excl s0 d2 o Hc0 Hnone.
    destruct (BufferManager.heap s0 !! fresh) as [g|] eqn:Hfresh.
    { rewrite install_stuck by eauto. by intros [= <- <- <-]. }
    destruct (install_fresh fresh pid excl d2 s0) as (l & -> & _); [done..|].
    intros [= <- <- <-] p f. simpl.
    intros [[<- <-]|[_ ?]]%lookup_insert_Some; [done|by eapply Hc0]. }
  destruct c as [owned fresh pid excl|q b|q|q b]; simpl.
  - destruct (BufferManager.fix_page _ _ _ _ _ _) as [[o d1] s1] eqn:Hfix.
    intros Hs. assert (d1 = d' ∧ s1 = s') as [-> ->].
    { destruct o; by simplify_eq. }
    clear Hs. revert Hfix. fix_page_cases Hwf s pid.
    + by intros [= <- <- <-].
    + intros [= <- <- <-]. simpl. destruct (if excl then _ else _) as [l|]; [|done].
      intros r g [[<- <-]|[_ ?]]%lookup_insert_Some; [|by eapply Hclean].
      simpl. by eapply Hclean.
    + apply Hinst; [done|done].
    + by intros [= <- <- <-].
    + destruct (BufferFrame.flush _ d) as [[[|e] g] d2] eqn:Hfl.
      * apply Hinst; simpl.
        -- intros r h [_ ?]%lookup_delete_Some. by eapply Hclean.
        -- apply lookup_delete_None. by right.
      * intros [= <- <- <-]. simpl.
        intros r h [[<- <-]|[_ ?]]%lookup_insert_Some; [|by eapply Hclean].
        simpl. by eapply Hclean.
  - unfold BufferManager.unfix_page, BufferFrame.unlock.
    destruct b; [done|].
    destruct (BufferManager.heap s !! q) as [f|] eqn:Hq; [|done].
    destruct (rw_unlock _) as [l|]; [|done].
    intros [= <- <-]. simpl.
    intros r h [[<- <-]|[_ ?]]%lookup_insert_Some; [|by eapply Hclean].
    simpl. by eapply Hclean.
  - unfold frame_get_data.
    destruct (BufferManager.heap s !! q) as [f|] eqn:Hq; [|done].
    destruct (BufferFrame.get_data f d) as [[[r0 b0] g] d2] eqn:Hg.
    intros [= <- <-]. simpl.
    intros r h [[<- <-]|[_ ?]]%lookup_insert_Some; [|by eapply Hclean].
    revert Hg. unfold BufferFrame.get_data, BufferFrame.readPage.
    pose proof (Hclean _ _ Hq).
    intros Hg; repeat case_match; simplify_eq/=; try done; congruence.
  - unfold resume.
    destruct (BufferManager.heap s !! q) as [f|] eqn:Hq; [|done].
    destruct (if b then _ else _) as [[r0 g]|] eqn:Hl; [|done].
    intros [= <- <-]. simpl.
    intros r h [[<- <-]|[_ ?]]%lookup_insert_Some; [|by eapply Hclean].
    assert (BufferFrame.state g = BufferFrame.state f) as ->; [|by eapply Hclean].
    destruct b.
    + by apply lockWrite_inv in Hl as [(_ & _ & ->)|(_ & _ & _ & ->)].
    + by apply lockRead_inv in Hl as [(_ & l & _ & ->)|(_ & _ & _ & ->)].
Qed.

(** X11: frames become dirty only through [unfix_page] with the dirty
    flag.  After calls none of which unfixes with the flag set, no frame is
    dirty, and [fix_page] leaves the files as they are, whether it
    replaces a frame or not. *)
Theorem clean_pool_never_writes ps pc cs d0 d s :
  run cs (d0, BufferManager.new ps pc) = Some (d, s) →
  Forall (λ c, marks_dirty c = false) cs →
  (∀ p f, BufferManager.heap s !! p = Some f →
          BufferFrame.state f ≠ FrameState.dirty) ∧
  ∀ owned fresh pid excl o d' s',
    BufferManager.fix_page owned fresh pid excl d s = (o, d', s') → d' = d.
Proof.
  intros Hrun Hcs.
  pose proof (reachable_wf _ _ _ _ _ _ Hrun) as (Hwf & _).
  assert (Hclean : ∀ p f, BufferManager.heap s !! p = Some f →
                          BufferFrame.state f ≠ FrameState.dirty).
  { assert (Hgen : ∀ cs d1 s1, wf s1 →
      (∀ p f, BufferManager.heap s1 !! p = Some f →
              BufferFrame.state f ≠ FrameState.dirty) →
      Forall (λ c, marks_dirty c = false) cs →
      run cs (d1, s1) = Some (d, s) →
      ∀ p f, BufferManager.heap s !! p = Some f →
             BufferFrame.state f ≠ FrameState.dirty).
    { clear. induction cs as [|c cs IH]; intros d1 s1 Hwf Hc1 Hall; cbn [run].
      - by intros [= <- <-].
      - apply Forall_cons in Hall as [Hc Hall].
        destruct (step c (d1, s1)) as [[d2 s2]|] eqn:Hstep; [|done].
        apply IH; [by eapply step_wf| |done].
        by eapply step_keeps_clean. }
    eapply Hgen; [apply wf_new| |done|done]. simpl. by intros p f ?%lookup_empty_Some. }
  split; [done|].
  intros owned fresh pid excl o d' s'. fix_page_cases Hwf s pid.
  - by intros [= <- <- <-].
  - by intros [= <- <- <-].
  - unfold BufferManager.install, BufferManager.map_insert.
    intros H; repeat case_match; by simplify_eq.
  - by intros [= <- <- <-].
  - rewrite flush_not_dirty by (simpl; by eapply Hclean).
    unfold BufferManager.install, BufferManager.map_insert.
    intros H; repeat case_match; by simplify_eq.
Qed.

Lemma store_data_wf p bytes s s' :
  wf s → store_data p bytes s = Some s' →
  wf s' ∧ BufferManager.page_size s' = BufferManager.page_size s ∧
  BufferManager.page_count s' = BufferManager.page_count s.
Proof.
  intros Hwf. unfold store_data.
  destruct (BufferManager.heap s !! p) as [f|] eqn:Hp; [|done].
  destruct (BufferFrame.data f) as [old|]; [|done].
  case_decide; [|done]. intros [= <-]. split; [|done].
  by apply (wf_frame_update _ p f).
Qed.

Lemma client_reachable_wf ps pc os d0 d s :
  client_run os (d0, BufferManager.new ps pc) = Some (d, s) →
  wf s ∧ BufferManager.page_size s = ps ∧ BufferManager.page_count s = pc.
Proof.
  assert (Hgen : ∀ os d1 s1,
    wf s1 → client_run os (d1, s1) = Some (d, s) →
    wf s ∧ BufferManager.page_size s = BufferManager.page_size s1 ∧
    BufferManager.page_count s = BufferManager.page_count s1).
  { clear. induction os as [|o os IH]; intros d1 s1 Hwf; cbn [client_run].
    - by intros [= <- <-].
    - destruct (client_step o (d1, s1)) as [[d2 s2]|] eqn:Hstep; [|done].
      intros Hrun. destruct o as [c|q bytes]; simpl in Hstep.
      + pose proof (step_wf _ _ _ _ _ Hwf Hstep).
        apply step_config in Hstep as [<- <-]. by eapply IH.
      + destruct (store_data q bytes s1) as [s3|] eqn:Hst; [|done].
        injection Hstep as <- <-.
        apply store_data_wf in Hst as (? & <- & <-); [|done]. by eapply IH. }
  intros Hrun. by apply Hgen in Hrun; [|apply wf_new].
Qed.

(** X14: a dirty page that is replaced can be loaded again.  Take a pool
    reached from the constructor by calls of the interface and by writes
    of the callers into the buffers, on a file layer that reads back what
    it wrote.  When [fix_page] replaces a dirty frame whose buffer fills
    the page, [get_data] on a new frame for the replaced page id, on the
    files as [fix_page] left them, materialises the buffer of the
    replaced frame, with whatever was written into it. *)
Theorem replaced_dirty_page_is_read_back
    ps pc os d0 d s owned fresh pid (excl : bool) q1 v q2 fv b d1 s1 :
  reads_back_writes FS →
  client_run os (d0, BufferManager.new ps pc) = Some (d, s) →
  BufferManager.mtx s = false →
  BufferManager.bufferFrameMap s !! pid = None →
  N.of_nat (size (BufferManager.bufferFrameMap s)) = pc →
  BufferManager.fifo s = q1 ++ v :: q2 →
  (∀ r, r ∈ q1 →
     ∃ h, BufferManager.heap s !! r = Some h ∧ BufferFrame.frameLock h ≠ Unlocked) →
  BufferManager.heap s !! v = Some fv →
  BufferFrame.frameLock fv = Unlocked →
  BufferFrame.state fv = FrameState.dirty →
  BufferFrame.data fv = Some b →
  length b = N.to_nat ps →
  BufferManager.fix_page owned fresh pid excl d s = (Fixed fresh, d1, s1) →
  let old := BufferFrame.page_id fv in
  BufferManager.bufferFrameMap s1 !! old = None ∧
  (BufferFrame.get_data (BufferFrame.new old ps (get_segment_id old)) d1).1.1
    = (Done, Some b).
Proof.
  intros Hlaw Hrun Hmtx Hpid Hfull Hfifo Hq1 Hv Hu Hst Hdata Hlen Hfix old.
  pose proof (client_reachable_wf _ _ _ _ _ _ Hrun) as (Hwf & Hps & Hpc).
  pose proof (wf_frames _ Hwf _ _ Hv) as Hmade. rewrite Hps in Hmade.
  pose proof (wf_heap _ Hwf _ _ Hv) as Hmv.
  rewrite (fix_page_evict _ _ _ _ _ _ q1 q2 v fv) in Hfix; [|done|done|lia|done..].
  destruct (BufferFrame.flush _ d) as [[[|e] g] d2] eqn:Hfl; [|done].
  set (s0 := BufferManager.mk _ _ _ _ _ _ _) in Hfix.
  destruct (BufferManager.heap s0 !! fresh) as [g0|] eqn:Hfresh.
  { by rewrite install_stuck in Hfix by eauto. }
  destruct (install_fresh fresh pid excl d2 s0) as (l & Heq & _).
  { done. }
  { simpl. apply lookup_delete_None. by right. }
  rewrite Heq in Hfix. injection Hfix as <- <-. simpl. split.
  - rewrite lookup_insert_ne by (intros ->; fold old in Hmv; congruence).
    apply lookup_delete_eq.
  - erewrite (flushed_buffer_is_read_back ps
      (BufferFrame.set_frameLock WrLocked fv) b d); [done|done| |done..].
    destruct Hmade as (? & ? & ?). by repeat split.
Qed.

End FurtherPool.

(** X15: the latch calls of a frame, for a caller that holds the write
    latch of the frame ([owned]) or does not.  [lockWrite(false)] and
    [lockRead(false)] always return, whoever calls: [lockWrite] obtains
    the latch exactly when nobody holds it, [lockRead] exactly when no
    writer holds it, and otherwise they return [false] and leave the frame
    as it is.  The calls with [true] obtain the latch exactly when those
    with [false] do, with the same frame as result.  When the latch is
    not free for them, they return [false] without a change exactly when
    the caller itself is the writer, and wait otherwise.  A call that
    obtained the latch found it free for the request and changed nothing
    else in the frame, and [unlock] after it gives the frame back as it
    was. *)
Theorem latch_calls_compose (owned : bool) (f : BufferFrame.t) :
  (BufferFrame.lockWrite owned false f ≠ None ∧
   BufferFrame.lockRead owned false f ≠ None) ∧
  (BufferFrame.lockWrite owned false f
     = Some (true, BufferFrame.set_frameLock WrLocked f) ↔
   BufferFrame.frameLock f = Unlocked) ∧
  (BufferFrame.lockWrite owned false f = Some (false, f) ↔
   BufferFrame.frameLock f ≠ Unlocked) ∧
  ((∃ g, BufferFrame.lockRead owned false f = Some (true, g)) ↔
   BufferFrame.frameLock f ≠ WrLocked) ∧
  (BufferFrame.lockRead owned false f = Some (false, f) ↔
   BufferFrame.frameLock f = WrLocked) ∧
  (∀ g, BufferFrame.lockWrite owned true f = Some (true, g) ↔
        BufferFrame.lockWrite owned false f = Some (true, g)) ∧
  (∀ g, BufferFrame.lockRead owned true f = Some (true, g) ↔
        BufferFrame.lockRead owned false f = Some (true, g)) ∧
  (∀ g, BufferFrame.lockWrite owned true f = Some (false, g) ↔
        g = f ∧ owned = true ∧ BufferFrame.frameLock f = WrLocked) ∧
  (∀ g, BufferFrame.lockRead owned true f = Some (false, g) ↔
        g = f ∧ owned = true ∧ BufferFrame.frameLock f = WrLocked) ∧
  (BufferFrame.lockWrite owned true f = None ↔
   BufferFrame.frameLock f ≠ Unlocked ∧
   ¬ (owned = true ∧ BufferFrame.frameLock f = WrLocked)) ∧
  (BufferFrame.lockRead owned true f = None ↔
   BufferFrame.frameLock f = WrLocked ∧ owned = false) ∧
  (∀ b g, BufferFrame.lockWrite owned b f = Some (true, g) →
     BufferFrame.frameLock f = Unlocked ∧
     g = BufferFrame.set_frameLock WrLocked f ∧
     BufferFrame.unlock g = Some f) ∧
  (∀ b g, BufferFrame.lockRead owned b f = Some (true, g) →
     BufferFrame.frameLock f ≠ WrLocked ∧
     (∃ n, g = BufferFrame.set_frameLock (RdLocked n) f) ∧
     BufferFrame.unlock g = Some f).
Proof.
  unfold BufferFrame.lockWrite, BufferFrame.lockRead, BufferFrame.unlock,
    wrlock, rdlock.
  destruct f as [pid sz seg off st dt l]. simpl.
  split_and!.
  - by destruct l.
  - by destruct l.
  - destruct l; split; try done.
  - destruct l; split; try done.
  - destruct l; split; try done; try (by intros [g ?]); eauto.
  - destruct l; split; try done.
  - intros g. destruct owned, l; simpl; split; done.
  - intros g. destruct owned, l; simpl; split; done.
  - intros g. destruct owned, l; simpl; split; try done;
      try (by intros (_ & ? & ?)); try (by intros [= <-]); by intros (-> & _).
  - intros g. destruct owned, l; simpl; split; try done;
      try (by intros (_ & ? & ?)); try (by intros [= <-]); by intros (-> & _).
  - destruct owned, l; simpl; split; try done;
      try (by intros [? ?]); try (by intros [_ []]); try (by split; [|intros []]).
  - destruct owned, l; simpl; split; try done; by intros [? ?].
  - intros b g. destruct b, owned, l; simpl; intros [= <-]; done.
  - intros b g. destruct b, owned, l as [|n|]; simpl; intros [= <-]; simpl;
      (split_and!; [done|eauto|]); try done.
    all: destruct (Pos.succ n) eqn:Hs; try (by rewrite <- Hs, Pos.pred_succ);
      by destruct n.
Qed.

(** *** Instances of the further properties *)

Lemma latch_calls_compose_witness :
  let f := BufferFrame.new 1 4 0 in
  ∃ g, BufferFrame.lockRead false false f = Some (true, g) ∧
       BufferFrame.unlock g = Some f.
Proof.
  intros f. eexists. split; [reflexivity|].
  destruct (latch_calls_compose false f)
    as (_ & _ & _ & _ & _ & _ & _ & _ & _ & _ & _ & _ & Hread).
  refine (proj2 (proj2 (Hread false _ _))). reflexivity.
Defined.


Lemma buffer_full_iff_witness :
  ∃ d s,
    run (FS := mem_files) [FixPage false 10 1 true] (∅, BufferManager.new 4 1)
      = Some (d, s) ∧
    BufferManager.mtx s = false ∧
    (BufferManager.fix_page (FS := mem_files) false 11 2 false d s).1.1
      = Thrown buffer_full_error ∧
    N.of_nat (size (BufferManager.bufferFrameMap s)) = 1.
Proof.
  eexists _, _. split; [vm_compute; reflexivity|].
  split; [reflexivity|]. split; [vm_compute; reflexivity|].
  refine (proj1 (proj2 (proj1 (buffer_full_iff (FS := mem_files) 4 1
    [FixPage false 10 1 true] ∅ _ _ false 11 2 false _ _) _)));
    vm_compute; reflexivity.
Defined.

Lemma fixed_frame_is_latched_witness :
  ∃ d s d' s',
    run (FS := mem_files) [FixPage false 10 1 true] (∅, BufferManager.new 4 2)
      = Some (d, s) ∧
    BufferManager.fix_page (FS := mem_files) true 11 1 true d s = (Fixed 10, d', s') ∧
    BufferManager.bufferFrameMap s' !! 1 = Some 10.
Proof.
  eexists _, _, _, _. split; [vm_compute; reflexivity|].
  split; [vm_compute; reflexivity|].
  refine (proj1 (proj2 (fixed_frame_is_latched (FS := mem_files) 4 2
    [FixPage false 10 1 true] ∅ _ _ true 11 1 true 10 _ _ _ _)));
    vm_compute; reflexivity.
Defined.

Lemma fix_page_waits_on_conflict_witness :
  ∃ d s,
    run (FS := mem_files) [FixPage false 10 1 true] (∅, BufferManager.new 4 2)
      = Some (d, s) ∧
    BufferManager.mtx s = false ∧
    (BufferManager.fix_page (FS := mem_files) false 11 1 false d s).1.1 = Suspended 10 ∧
    BufferManager.bufferFrameMap s !! 1 = Some 10.
Proof.
  eexists _, _. split; [vm_compute; reflexivity|].
  split; [reflexivity|]. split; [vm_compute; reflexivity|].
  refine (proj1 (proj1 (proj1 (fix_page_waits_on_conflict (FS := mem_files) 4 2
    [FixPage false 10 1 true] ∅ _ _ false 11 1 false 10 _ _)) _));
    vm_compute; reflexivity.
Defined.

Lemma replacement_takes_first_free_fifo_frame_witness :
  ∃ d s fv g d1 s',
    run (FS := mem_files) [FixPage false 10 1 true; FixPage false 11 2 false; UnfixPage 11 false]
      (∅, BufferManager.new 4 2) = Some (d, s) ∧
    BufferManager.fifo s = [10] ++ 11 :: [] ∧
    BufferManager.heap s !! 11 = Some fv ∧
    BufferFrame.flush (FS := mem_files) (BufferFrame.set_frameLock WrLocked fv) d
      = (Done, g, d1) ∧
    BufferManager.fix_page (FS := mem_files) false 11 3 true d s = (Fixed 11, d1, s') ∧
    BufferManager.fifo s' = [10; 11] ∧ BufferManager.get_fifo_list s' = Some [1; 3].
Proof.
  eexists _, _, _, _, _, _. split; [vm_compute; reflexivity|].
  split; [reflexivity|]. split; [vm_compute; reflexivity|].
  split; [vm_compute; reflexivity|].
  split.
  - refine (proj1 (replacement_takes_first_free_fifo_frame (FS := mem_files) 4 2
      [FixPage false 10 1 true; FixPage false 11 2 false; UnfixPage 11 false] ∅ _ _
      false 11 3 true [10] 11 [] _ _ _ _ _ _ _ _ _ _ _ _ _)).
    + vm_compute; reflexivity.
    + reflexivity.
    + vm_compute; reflexivity.
    + vm_compute; reflexivity.
    + reflexivity.
    + intros r ->%list_elem_of_singleton. eexists.
      split; [vm_compute; reflexivity|vm_compute; discriminate].
    + vm_compute; reflexivity.
    + reflexivity.
    + vm_compute; reflexivity.
    + by left.
  - split; vm_compute; reflexivity.
Defined.

Lemma latched_frames_survive_witness :
  ∃ d s o d' s' h,
    run (FS := mem_files) [FixPage false 10 1 true; FixPage false 11 2 false; UnfixPage 11 false]
      (∅, BufferManager.new 4 2) = Some (d, s) ∧
    BufferManager.fix_page (FS := mem_files) false 12 3 true d s = (o, d', s') ∧
    BufferManager.heap s !! 10 = Some h ∧
    BufferFrame.frameLock h ≠ Unlocked ∧
    BufferManager.bufferFrameMap s' !! BufferFrame.page_id h = Some 10.
Proof.
  eexists _, _, _, _, _, _. split; [vm_compute; reflexivity|].
  split; [vm_compute; reflexivity|]. split; [vm_compute; reflexivity|].
  split; [vm_compute; discriminate|].
  refine (proj1 (latched_frames_survive (FS := mem_files) 4 2
    [FixPage false 10 1 true; FixPage false 11 2 false; UnfixPage 11 false] ∅ _ _
    false 12 3 true _ _ _ 10 _ _ _ _ _)).
  - vm_compute; reflexivity.
  - vm_compute; reflexivity.
  - vm_compute; reflexivity.
  - vm_compute; discriminate.
Defined.

Lemma failed_write_back_keeps_mtx_witness :
  ∃ d s d' s',
    run (FS := mem_files) [FixPage false 10 1 true; UnfixPage 10 true]
      (∅, BufferManager.new 4 1) = Some (d, s) ∧
    BufferManager.fix_page (FS := mem_files) false 11 2 false d s
      = (Thrown io_error, d', s') ∧
    io_error ≠ buffer_full_error ∧
    BufferManager.fix_page (FS := mem_files) false 12 1 false d' s' = (Deadlocked, d', s').
Proof.
  eexists _, _, _, _. split; [vm_compute; reflexivity|].
  split; [vm_compute; reflexivity|]. split; [discriminate|].
  refine (proj2 (proj2 (proj2 (proj2 (proj2 (proj2
    (failed_write_back_keeps_mtx (FS := mem_files) 4 1
       [FixPage false 10 1 true; UnfixPage 10 true] ∅ _ _ false 11 2 false io_error _ _ _ _ _))))))
    false 12 1 false _).
  - vm_compute; reflexivity.
  - vm_compute; reflexivity.
  - discriminate.
Defined.

Lemma fix_unfix_restores_frames_witness :
  ∃ d s f d' s',
    run (FS := mem_files) [FixPage false 10 1 true; GetData 10; FixPage false 11 2 false]
      (∅, BufferManager.new 4 2) = Some (d, s) ∧
    BufferManager.bufferFrameMap s !! 1 = Some 10 ∧
    BufferManager.heap s !! 10 = Some f ∧
    BufferManager.fix_page (FS := mem_files) true 12 1 false d s = (Fixed 10, d', s') ∧
    d' = d.
Proof.
  eexists _, _, _, _, _. split; [vm_compute; reflexivity|].
  split; [vm_compute; reflexivity|]. split; [vm_compute; reflexivity|].
  split; [vm_compute; reflexivity|].
  refine (proj1 (fix_unfix_restores_frames (FS := mem_files) 4 2
    [FixPage false 10 1 true; GetData 10; FixPage false 11 2 false] ∅ _ _ true 12 1 false
    10 _ _ _ _ _ _ _)); vm_compute; reflexivity.
Defined.

Lemma snapshots_list_resident_pages_witness :
  ∃ d s fl ll,
    run (FS := mem_files) (touch_upto 3 ++ touch 102 2) (∅, BufferManager.new 4 3)
      = Some (d, s) ∧
    BufferManager.get_fifo_list s = Some fl ∧
    BufferManager.get_lru_list s = Some ll ∧
    NoDup (fl ++ ll).
Proof.
  destruct (snapshots_list_resident_pages (FS := mem_files) 4 3
    (touch_upto 3 ++ touch 102 2) ∅
    (fst (default (∅, BufferManager.new 4 3)
       (run (FS := mem_files) (touch_upto 3 ++ touch 102 2) (∅, BufferManager.new 4 3))))
    (snd (default (∅, BufferManager.new 4 3)
       (run (FS := mem_files) (touch_upto 3 ++ touch 102 2) (∅, BufferManager.new 4 3)))))
    as (fl & ll & Hfl & Hll & Hnd & _); [vm_compute; reflexivity|].
  eexists _, _, fl, ll. split; [vm_compute; reflexivity|].
  split; [exact Hfl|]. split; [exact Hll|exact Hnd].
Defined.

Lemma clean_pool_never_writes_witness :
  ∃ d s o d' s',
    run (FS := mem_files)
      [FixPage false 10 1 true; GetData 10; UnfixPage 10 false; FixPage false 11 2 false;
       UnfixPage 11 false]
      (∅, BufferManager.new 4 2) = Some (d, s) ∧
    Forall (λ c, marks_dirty c = false)
      [FixPage false 10 1 true; GetData 10; UnfixPage 10 false; FixPage false 11 2 false;
       UnfixPage 11 false] ∧
    BufferManager.fix_page (FS := mem_files) false 12 3 false d s = (o, d', s') ∧
    d' = d.
Proof.
  eexists _, _, _, _, _. split; [vm_compute; reflexivity|].
  split; [repeat constructor|]. split; [vm_compute; reflexivity|].
  refine (proj2 (clean_pool_never_writes (FS := mem_files) 4 2
    [FixPage false 10 1 true; GetData 10; UnfixPage 10 false; FixPage false 11 2 false;
     UnfixPage 11 false] ∅ _ _ _ _) false 12 3 false _ _ _ _).
  - vm_compute; reflexivity.
  - repeat constructor.
  - vm_compute; reflexivity.
Defined.

Lemma replaced_dirty_page_is_read_back_witness :
  let bytes := [Byte.x01; Byte.x02; Byte.x03; Byte.x04] in
  let os := [Call (FixPage false 10 1 true); Call (GetData 10);
             Store 10 bytes; Call (UnfixPage 10 true)] in
  ∃ d s fv d1 s1,
    reads_back_writes mem_files ∧
    client_run (FS := mem_files) os (∅, BufferManager.new 4 1) = Some (d, s) ∧
    BufferManager.heap s !! 10 = Some fv ∧
    BufferFrame.state fv = FrameState.dirty ∧
    BufferFrame.data fv = Some bytes ∧
    BufferManager.fix_page (FS := mem_files) false 11 2 false d s = (Fixed 11, d1, s1) ∧
    (BufferFrame.get_data (FS := mem_files)
       (BufferFrame.new (BufferFrame.page_id fv) 4
          (get_segment_id (BufferFrame.page_id fv))) d1).1.1 = (Done, Some bytes).
Proof.
  intros bytes os.
  eexists _, _, _, _, _. split; [exact mem_files_reads_back|].
  split; [vm_compute; reflexivity|]. split; [vm_compute; reflexivity|].
  split; [reflexivity|]. split; [reflexivity|].
  split; [vm_compute; reflexivity|].
  refine (proj2 (replaced_dirty_page_is_read_back (FS := mem_files) 4 1
    os ∅ _ _ false 11 2 false
    [] 10 [] _ _ _ _ mem_files_reads_back _ _ _ _ _ _ _ _ _ _ _ _)).
  - vm_compute; reflexivity.
  - reflexivity.
  - vm_compute; reflexivity.
  - vm_compute; reflexivity.
  - reflexivity.
  - by intros r ?%elem_of_nil.
  - vm_compute; reflexivity.
  - reflexivity.
  - reflexivity.
  - reflexivity.
  - reflexivity.
  - vm_compute; reflexivity.
Defined.
